(** * epic.logging.logregator: a shallow embedding and its properties

    The development follows [src/epic/logging/logregator.py] class by class:
    [LogregatorHandler], [LogregatorProcess], [Logregator] and [Logtor].
    Python objects that are shared by reference (handlers registered on the
    root logger, channels, the per-context [Process] attribute) live in an
    explicit store, the [World]; methods are state transformers on it, and
    methods that can raise live in a small state-and-exception monad. *)

From stdpp Require Import base numbers list strings gmap pretty.

(** ** Exceptions and outcomes *)

Inductive Exn :=
  | RuntimeError (m : string)
  | ValueError (m : string)
  (* the interpreter's message of a [TypeError] is not modelled *)
  | TypeError
  | queue_Full
  | OtherException (m : string).

Inductive Outcome (A : Type) :=
  | Return (a : A)
  | Raise (e : Exn).
Arguments Return {A} a.
Arguments Raise {A} e.

(** ** Logging levels (the constants of Python's [logging]) *)

Definition NOTSET : Z := 0.
Definition DEBUG : Z := 10.
Definition INFO : Z := 20.
Definition WARNING : Z := 30.

(** ** Log records

    [record.msg] is an arbitrary object that is rendered with [str()] when a
    message is built; the tests log both a string and the integer [123]. *)

Inductive MsgObj :=
  | MsgStr (s : string)
  | MsgInt (n : Z).

Definition py_str (m : MsgObj) : string :=
  match m with
  | MsgStr s => s
  | MsgInt n => pretty n
  end.

(** The triple [(type, value, traceback)] that [Logger._log] puts in
    [record.exc_info] for a log call with a true [exc_info]. *)
Record ExcInfo := mkExcInfo {
  exc_type : string;
  exc_value : string;
  exc_traceback : list string
}.

(** What [record.exc_info] holds when it is not [None]: the triple, or the
    false value that a log call with [exc_info=False] leaves on the record
    ([Logger._log] converts true values only, and stores the others as they
    are). *)
Inductive ExcInfoObj :=
  | exc_triple (e : ExcInfo)
  | exc_False.

Record LogRecord := mkLogRecord {
  rec_name : string;
  levelno : Z;
  msg : MsgObj;
  exc_info : option ExcInfoObj;
  exc_text : option string;
  (* attributes set on the instance besides the standard ones *)
  attrs : gmap string bool
}.

Definition set_msg (m : MsgObj) (r : LogRecord) : LogRecord :=
  mkLogRecord (rec_name r) (levelno r) m (exc_info r) (exc_text r) (attrs r).
Definition set_exc_info (e : option ExcInfoObj) (r : LogRecord) : LogRecord :=
  mkLogRecord (rec_name r) (levelno r) (msg r) e (exc_text r) (attrs r).
Definition set_exc_text (t : option string) (r : LogRecord) : LogRecord :=
  mkLogRecord (rec_name r) (levelno r) (msg r) (exc_info r) t (attrs r).

(** [setattr(record, key, v)] and [getattr(record, key, dflt)]. *)
Definition setattr (key : string) (v : bool) (r : LogRecord) : LogRecord :=
  mkLogRecord (rec_name r) (levelno r) (msg r) (exc_info r) (exc_text r)
    (<[key := v]> (attrs r)).
Definition getattr (key : string) (dflt : bool) (r : LogRecord) : bool :=
  default dflt (attrs r !! key).

(** ** The state-and-exception monad *)

Definition M (S A : Type) : Type := S → S * Outcome A.

#[export] Instance M_ret {S} : MRet (M S) := λ A a s, (s, Return a).
#[export] Instance M_bind {S} : MBind (M S) := λ A B k m s,
  match m s with
  | (s', Return a) => k a s'
  | (s', Raise e) => (s', Raise e)
  end.
Definition throw {S A} (e : Exn) : M S A := λ s, (s, Raise e).
Definition modify {S} (f : S → S) : M S unit := λ s, (f s, Return ()).

(** [for x in xs: body x], stopping at the first exception. *)
Fixpoint for_each {S A} (body : A → M S unit) (xs : list A) : M S unit :=
  match xs with
  | [] => mret ()
  | x :: xs' => body x;; for_each body xs'
  end.

(** [try: body finally: cleanup]: the cleanup always runs; its exception, if
    any, replaces the outcome of the body. *)
Definition try_finally {S A} (body : M S A) (cleanup : M S unit) : M S A :=
  λ s, match body s with
       | (s1, o) =>
           match cleanup s1 with
           | (s2, Return _) => (s2, o)
           | (s2, Raise e) => (s2, Raise e)
           end
       end.

(** ** The channel interface

    [QueueLike] is the protocol the handler is written against: one method
    [put], which mutates the queue and may raise. *)

Class QueueLike (Q : Type) := put : Q → Z * LogRecord → Q * Outcome unit.

(** Modelled from the spec: [epic.common.queue.IterableQueue], the Handoff
    Channel, is imported by the module but not part of it. The channel is a
    FIFO with a closed flag; a [put] never raises and, after the close, is
    silently dropped; closing is idempotent, and the consumer's iteration
    delivers every item put before the close, in order, exactly once. *)
Record IterableQueue := mkQueue {
  items : list (Z * LogRecord);
  closed : bool
}.

Definition new_queue : IterableQueue := mkQueue [] false.

#[export] Instance IterableQueue_put : QueueLike IterableQueue :=
  λ q x, if closed q then (q, Return ())
         else (mkQueue (items q ++ [x]) (closed q), Return ()).

Definition no_more_input (q : IterableQueue) : IterableQueue :=
  mkQueue (items q) true.

(** ** LogregatorHandler *)

Definition _MARK_OF_THE_LOGREGATOR : string := "__logregator".

Definition mark_as_handled (record : LogRecord) : LogRecord :=
  setattr _MARK_OF_THE_LOGREGATOR true record.

Definition is_handled (record : LogRecord) : bool :=
  getattr _MARK_OF_THE_LOGREGATOR false record.

(** The instance state of a handler. [output_queue] is a reference into the
    store of channels. *)
Record LogregatorHandler := mkHandler {
  level : Z;
  output_queue : nat;
  _old_root_level : option Z
}.

(** [LogregatorHandler(level, output_queue)] *)
Definition LogregatorHandler_init (lvl : Z) (q : nat) : LogregatorHandler :=
  mkHandler lvl q None.

(** The separator of ['\n'.join(...)]. *)
Definition LF : string := String (Ascii.ascii_of_nat 10) EmptyString.

Section emit.
Context {Q : Type} `{QueueLike Q}.
(** [traceback.format_exception], from the standard library. *)
Variable format_exception : ExcInfo → list string.

(** Lines 53-57 of [emit]: the [put] inside [try ... except queue.Full]. *)
Definition put_suppressing_Full (pid : Z) (record : LogRecord) (q : Q)
    : LogRecord * Q * Outcome unit :=
  match put q (pid, record) with
  | (q', Raise queue_Full) => (record, q', Return ())
  | (q', o) => (record, q', o)
  end.

(** [emit] acts on the record (mutated in place) and on the queue object that
    [self.output_queue] refers to; [pid] is what [os.getpid()] returns in the
    emitting process. The result is the record and the queue as the call
    leaves them, and how the call ends. Unpacking [*record.exc_info] raises
    [TypeError] when the value is [False]: it passes [is not None] and is not
    iterable. *)
Definition emit (self : LogregatorHandler) (pid : Z)
    (record : LogRecord) (q : Q) : LogRecord * Q * Outcome unit :=
  if is_handled record then (record, q, Return ())
  else if bool_decide (level self ≤ levelno record)%Z then
    match exc_info record with
    | Some (exc_triple ei) =>
        put_suppressing_Full pid
          (set_exc_info None
             (set_exc_text (Some (String.concat LF (format_exception ei))) record))
          q
    | Some exc_False => (record, q, Raise TypeError)
    | None => put_suppressing_Full pid record q
    end
  else (record, q, Return ()).
End emit.

(** ** The process-wide state

    Handlers are objects with identity: the root logger's [handlers] list
    holds references, and [self in logging.root.handlers] compares by
    identity. [heap] maps a reference to the object it denotes. *)

Inductive HandlerObj :=
  | Logregator_handler (h : LogregatorHandler)
  | Other_handler (lvl : Z).

Record RootLogger := mkRoot {
  root_level : Z;
  root_handlers : list nat
}.

(** The namespaces whose [Process] attribute a session substitutes:
    [mp.get_context("spawn")], the module [mp] and the module [mp.context]. *)
Inductive Ctx := spawn_context | mp_module | mp_context_module.

#[export] Instance Ctx_eq_dec : EqDecision Ctx.
Proof. solve_decision. Defined.

Inductive ProcessClass :=
  | BaseProcess (c : Ctx)
  | LogregatorProcess_cls.

#[export] Instance ProcessClass_eq_dec : EqDecision ProcessClass.
Proof. solve_decision. Defined.

Record World := mkWorld {
  root : RootLogger;
  heap : gmap nat HandlerObj;
  queues : gmap nat IterableQueue;
  (* [ctx.Process]; [None] is Python's [None] *)
  Process : Ctx → option ProcessClass;
  (* records passed to [logger.handle], with the logger's name *)
  handled : list (string * LogRecord)
}.

Definition set_root (r : RootLogger) (w : World) : World :=
  mkWorld r (heap w) (queues w) (Process w) (handled w).
Definition set_heap (h : gmap nat HandlerObj) (w : World) : World :=
  mkWorld (root w) h (queues w) (Process w) (handled w).
Definition set_queues (q : gmap nat IterableQueue) (w : World) : World :=
  mkWorld (root w) (heap w) q (Process w) (handled w).
Definition set_Process (P : Ctx → option ProcessClass) (w : World) : World :=
  mkWorld (root w) (heap w) (queues w) P (handled w).
Definition set_handled (l : list (string * LogRecord)) (w : World) : World :=
  mkWorld (root w) (heap w) (queues w) (Process w) l.

(** [logging.root.setLevel], [addHandler] and [removeHandler]. *)
Definition root_setLevel (lvl : Z) (w : World) : World :=
  set_root (mkRoot lvl (root_handlers (root w))) w.

Definition root_addHandler (hdlr : nat) (w : World) : World :=
  if bool_decide (hdlr ∈ root_handlers (root w)) then w
  else set_root (mkRoot (root_level (root w)) (root_handlers (root w) ++ [hdlr])) w.

(** [list.remove]: drops the first occurrence. *)
Fixpoint list_remove_first (x : nat) (l : list nat) : list nat :=
  match l with
  | [] => []
  | y :: l' => if bool_decide (x = y) then l' else y :: list_remove_first x l'
  end.

Definition root_removeHandler (hdlr : nat) (w : World) : World :=
  if bool_decide (hdlr ∈ root_handlers (root w))
  then set_root (mkRoot (root_level (root w))
                   (list_remove_first hdlr (root_handlers (root w)))) w
  else w.

(** Reading and writing [self._old_root_level] through a reference. *)
Definition old_root_level_of (self : nat) (w : World) : option Z :=
  match heap w !! self with
  | Some (Logregator_handler h) => _old_root_level h
  | _ => None
  end.

Definition set_old_root_level (self : nat) (v : option Z) (w : World) : World :=
  set_heap (alter (λ o, match o with
                        | Logregator_handler h =>
                            Logregator_handler (mkHandler (level h) (output_queue h) v)
                        | Other_handler l => Other_handler l
                        end) self (heap w)) w.

Definition install (self : nat) (w : World) : World :=
  if bool_decide (self ∈ root_handlers (root w)) then w
  else
    let w := set_old_root_level self (Some (root_level (root w))) w in
    let w := root_setLevel (NOTSET + 1) w in
    root_addHandler self w.

Definition uninstall (self : nat) : M World unit := λ w,
  if bool_decide (self ∈ root_handlers (root w)) then
    match old_root_level_of self w with
    | None =>
        (w, Raise (RuntimeError
                     "Cannot uninstall, LogregatorHandler was not properly installed."))
    | Some lvl => (root_setLevel lvl (root_removeHandler self w), Return ())
    end
  else (w, Return ()).

(** Object allocation: a reference no handler list and no heap cell uses. *)
Definition fresh_ref (w : World) : nat :=
  fresh (dom (heap w) ∪ list_to_set (root_handlers (root w)) : gset nat).

(** [LogregatorHandler(level, output_queue)] as an allocation. *)
Definition new_handler (lvl : Z) (q : nat) : M World nat := λ w,
  let h := fresh_ref w in
  (set_heap (<[h := Logregator_handler (LogregatorHandler_init lvl q)]> (heap w)) w,
   Return h).

(** ** LogregatorProcess *)

(** What [__init__] adds to the process object, [self._logregator_handlers]:
    one [(level, output_queue)] pair per [LogregatorHandler] found on the
    root logger of the constructing process. *)
Definition LogregatorProcess_init (w : World) : list (Z * nat) :=
  omap (λ h, match heap w !! h with
             | Some (Logregator_handler o) => Some (level o, output_queue o)
             | _ => None
             end) (root_handlers (root w)).

(** [[LogregatorHandler(level, output_queue) for level, output_queue in ...]] *)
Fixpoint construct_handlers (snapshot : list (Z * nat)) : M World (list nat) :=
  match snapshot with
  | [] => mret []
  | (lvl, q) :: rest =>
      h ← new_handler lvl q; hs ← construct_handlers rest; mret (h :: hs)
  end.

(** The part of [run] that precedes the [try]. *)
Definition run_enter (self : list (Z * nat)) : M World (list nat) :=
  handlers ← construct_handlers self;
  for_each (λ h, modify (install h)) handlers;;
  mret handlers.

(** [run]; [target] is [super().run()], the user's callable. *)
Definition run (target : M World unit) (self : list (Z * nat)) : M World unit :=
  handlers ← run_enter self;
  try_finally target (for_each uninstall handlers).

(** ** Logregator *)

(** The sink logger as the session uses it: its name and what decides
    [isEnabledFor] in Python's [logging]. [logger_levels] holds [logger.level]
    of the logger and then of each of its ancestors below the root logger,
    nearest first; the chain ends at the root logger, whose level is in the
    [World] (the root logger itself, as a sink, has the empty list). *)
Record Logger := mkLogger {
  logger_name : string;
  logger_levels : list Z;
  logger_disabled : bool;
  manager_disable : Z
}.

(** The loop of [Logger.getEffectiveLevel]: the first level up the chain that
    is set, that is, not zero; [NOTSET] when there is none. *)
Fixpoint first_set_level (chain : list Z) : Z :=
  match chain with
  | [] => NOTSET
  | l :: rest => if bool_decide (l ≠ 0%Z) then l else first_set_level rest
  end.

Definition getEffectiveLevel (w : World) (l : Logger) : Z :=
  first_set_level (logger_levels l ++ [root_level (root w)]).

(** [Logger.isEnabledFor]. Its per-logger cache is emptied by every
    [setLevel], which is how levels change here, so the answer is always the
    one computed from the current levels. *)
Definition isEnabledFor (w : World) (l : Logger) (lvl : Z) : bool :=
  if logger_disabled l then false
  else if bool_decide (lvl ≤ manager_disable l)%Z then false
  else bool_decide (getEffectiveLevel w l ≤ lvl)%Z.

Record Thread := mkThread { daemon : bool }.

Record Logregator := mkLogregator {
  logger : Logger;
  my_pid : Z;
  (* a dict; kept in insertion order *)
  _old_process : list (Ctx * option ProcessClass);
  _input_queue : option nat;
  _handler : option nat;
  _consumer_thread : option Thread
}.

Definition set_old_process (d : list (Ctx * option ProcessClass))
    (s : Logregator) : Logregator :=
  mkLogregator (logger s) (my_pid s) d (_input_queue s) (_handler s)
    (_consumer_thread s).
Definition set_input_queue (q : option nat) (s : Logregator) : Logregator :=
  mkLogregator (logger s) (my_pid s) (_old_process s) q (_handler s)
    (_consumer_thread s).
Definition set_handler (h : option nat) (s : Logregator) : Logregator :=
  mkLogregator (logger s) (my_pid s) (_old_process s) (_input_queue s) h
    (_consumer_thread s).
Definition set_consumer_thread (t : option Thread) (s : Logregator) : Logregator :=
  mkLogregator (logger s) (my_pid s) (_old_process s) (_input_queue s)
    (_handler s) t.

(** [Logregator(logger)]; [pid] is [os.getpid()] and [start_method] is
    [mp.get_start_method()] at construction. *)
Definition Logregator_init (lg : Logger) (pid : Z) (start_method : string)
    : Logregator :=
  mkLogregator lg pid
    ((spawn_context, None) ::
       (if bool_decide (start_method = "spawn")
        then [(mp_module, None); (mp_context_module, None)] else []))
    None None None.

Definition started (self : Logregator) : bool :=
  bool_decide (_consumer_thread self ≠ None).

(** One iteration of the loop of [_consume_logs_proc], in the process state
    [w] in which the consumer thread runs it: the record as the iteration
    leaves it, and whether it reached [self.logger.handle]. *)
Definition consume_one (w : World) (self : Logregator) (x : Z * LogRecord)
    : LogRecord * bool :=
  let '(pid, record) := x in
  if negb (isEnabledFor w (logger self) (levelno record)) then (record, false)
  else
    let addendum := logger_name (logger self) in
    let addendum' :=
      if bool_decide (my_pid self ≠ pid)
      then Some (addendum +:+ " PID " +:+ pretty pid)
      else if bool_decide (rec_name record = logger_name (logger self))
           then None
           else Some addendum in
    match addendum' with
    | None => (record, false)
    | Some addendum =>
        let record :=
          set_msg (MsgStr ("[" +:+ addendum +:+ "] - " +:+ py_str (msg record))) record in
        let record := mark_as_handled record in
        (record, true)
    end.

Arguments consume_one : simpl never.

(** [_consume_logs_proc] over the items the channel delivers; [sink] collects
    the records passed to [self.logger.handle], oldest first. *)
Fixpoint _consume_logs_proc (w : World) (self : Logregator)
    (input : list (Z * LogRecord)) (sink : list LogRecord) : list LogRecord :=
  match input with
  | [] => sink
  | x :: rest =>
      let '(record, dispatched) := consume_one w self x in
      _consume_logs_proc w self rest
        (if dispatched then sink ++ [record] else sink)
  end.

(** The assignment [ctx.Process = cls]. *)
Definition assign_Process (ctx : Ctx) (cls : option ProcessClass)
    (P : Ctx → option ProcessClass) : Ctx → option ProcessClass :=
  λ c, if bool_decide (c = ctx) then cls else P c.

(** The first loop of [start]: save [ctx.Process] and substitute. *)
Fixpoint substitute_process (d : list (Ctx * option ProcessClass))
    (P : Ctx → option ProcessClass)
    : list (Ctx * option ProcessClass) * (Ctx → option ProcessClass) :=
  match d with
  | [] => ([], P)
  | (ctx, _) :: d' =>
      let old := P ctx in
      let '(d'', P') := substitute_process d' (assign_Process ctx (Some LogregatorProcess_cls) P) in
      ((ctx, old) :: d'', P')
  end.

(** The loop of [stop]: [ctx.Process = old_process]. *)
Fixpoint restore_process (d : list (Ctx * option ProcessClass))
    (P : Ctx → option ProcessClass) : Ctx → option ProcessClass :=
  match d with
  | [] => P
  | (ctx, old_process) :: d' => restore_process d' (assign_Process ctx old_process P)
  end.

(** [start]; [thread_ok] tells whether creating and starting the consumer
    thread succeeds (it raises otherwise, and the [except] clause runs). *)
Definition start (thread_ok : bool) (self : Logregator) (w : World)
    : Logregator * World :=
  if started self then (self, w)
  else
    let q := fresh (dom (queues w)) in
    let w := set_queues (<[q := new_queue]> (queues w)) w in
    let self := set_input_queue (Some q) self in
    let h := fresh_ref w in
    let w := set_heap (<[h := Logregator_handler
                               (LogregatorHandler_init
                                  (getEffectiveLevel w (logger self)) q)]> (heap w)) w in
    let self := set_handler (Some h) self in
    let w := install h w in
    let '(d, P) := substitute_process (_old_process self) (Process w) in
    let self := set_old_process d self in
    let w := set_Process P w in
    let self :=
      set_consumer_thread (if thread_ok then Some (mkThread true) else None) self in
    (self, w).

(** [self._input_queue.no_more_input()] inside [try ... except: pass]. *)
Definition close_input (self : Logregator) (w : World) : World :=
  match _input_queue self with
  | Some q => set_queues (alter no_more_input q (queues w)) w
  | None => w
  end.

(** [self._consumer_thread.join()]: the consumer delivers what is left in the
    channel to the sink and ends. The consumer thread is scheduled here: it
    reads the levels of the process state in which [join] is called. *)
Definition join_consumer (self : Logregator) (w : World) : World :=
  match _input_queue self with
  | Some q =>
      match queues w !! q with
      | Some ch =>
          let out := _consume_logs_proc w self (items ch) [] in
          set_handled (handled w ++ map (pair (logger_name (logger self))) out)
            (set_queues (<[q := mkQueue [] (closed ch)]> (queues w)) w)
      | None => w
      end
  | None => w
  end.

Definition stop (self : Logregator) (w : World)
    : Logregator * World * Outcome unit :=
  if started self then
    let w := close_input self w in
    let w := join_consumer self w in
    let self := set_consumer_thread None self in
    match _handler self with
    | None => (self, w, Raise (OtherException "AttributeError"))
    | Some h =>
        match uninstall h w with
        | (w, Raise e) => (self, w, Raise e)
        | (w, Return _) =>
            let self := set_handler None self in
            let self := set_input_queue None self in
            (self, set_Process (restore_process (_old_process self) (Process w)) w,
             Return ())
        end
    end
  else (self, w, Return ()).

(** A sequence of [start()]/[stop()] calls on one session; an exception of
    [stop] reaches the caller, who goes on with the next call. *)
Inductive Call := call_start (thread_ok : bool) | call_stop.

Definition do_call (c : Call) (st : Logregator * World) : Logregator * World :=
  match c with
  | call_start ok => start ok st.1 st.2
  | call_stop => (stop st.1 st.2).1
  end.

Definition do_calls (cs : list Call) (st : Logregator * World)
    : Logregator * World :=
  foldl (λ st c, do_call c st) st cs.

(** ** Scoped use of a session *)





(** ** [logger.py]: [get_logger], [ClassLogger] and the preconfigured loggers

    The loggers of Python's [logging] are a registry of objects: the root
    logger and the named ones. Handlers are objects with identity,
    [addHandler] compares them by identity, so loggers hold references into a
    store of handler objects. *)

Module logger_py.

Definition gets {S A} (f : S → A) : M S A := λ s, (s, Return (f s)).

(** [LogLevel = str | int] *)
Inductive LogLevel :=
  | level_int (n : Z)
  | level_str (s : string).

(** [logging._nameToLevel] as the module defines it. *)
Definition _nameToLevel : list (string * Z) :=
  [("CRITICAL", 50); ("FATAL", 50); ("ERROR", 40); ("WARN", 30);
   ("WARNING", 30); ("INFO", 20); ("DEBUG", 10); ("NOTSET", 0)]%Z.

(** The handler classes the module creates, and any other handler a caller
    passes in. *)
Inductive HandlerKind :=
  | StreamKind
  | FileKind (filename mode : string)
  | NullKind
  | UserKind.

Record Formatter := mkFormatter { fmt : string; datefmt : string }.

Record PyHandler := mkPyHandler {
  h_kind : HandlerKind;
  h_level : Z;
  h_formatter : option Formatter
}.

Record PyLogger := mkPyLogger {
  lg_level : Z;
  lg_handlers : list nat
}.

(** Loggers are keyed by [None] for the root logger and [Some name] for a
    named one. *)
Record Logging := mkLogging {
  loggers : gmap (option string) PyLogger;
  handler_objs : gmap nat PyHandler
}.

Definition set_loggers (l : gmap (option string) PyLogger) (st : Logging)
    : Logging :=
  mkLogging l (handler_objs st).
Definition set_handler_objs (h : gmap nat PyHandler) (st : Logging) : Logging :=
  mkLogging (loggers st) h.

(** [logger.name] *)
Definition name_of (key : option string) : string :=
  match key with
  | None => "root"
  | Some name => name
  end.

(** A logger that is looked up for the first time is created: the root
    logger at WARNING, any other at NOTSET, without handlers. *)
Definition new_logger (key : option string) : PyLogger :=
  match key with
  | None => mkPyLogger WARNING []
  | Some _ => mkPyLogger NOTSET []
  end.

Definition the_logger (key : option string) (st : Logging) : PyLogger :=
  default (new_logger key) (loggers st !! key).

(** [Logger.manager.getLogger(name)] *)
Definition Manager_getLogger (name : string) : M Logging (option string) :=
  λ st, (set_loggers (<[Some name := the_logger (Some name) st]> (loggers st)) st,
         Return (Some name)).

(** [logging.getLogger(name)]: the empty name and the root's name give the
    root logger. *)
Definition getLogger (name : string) : M Logging (option string) :=
  if bool_decide (name = "") || bool_decide (name = "root")
  then λ st, (set_loggers (<[None := the_logger None st]> (loggers st)) st,
              Return None)
  else Manager_getLogger name.

Definition update_logger (f : PyLogger → PyLogger) (key : option string)
    : M Logging unit :=
  modify (λ st, set_loggers (<[key := f (the_logger key st)]> (loggers st)) st).

(** [logger.addHandler(h)] *)
Definition Logger_addHandler (h : nat) (key : option string) : M Logging unit :=
  update_logger (λ lg, if bool_decide (h ∈ lg_handlers lg) then lg
                       else mkPyLogger (lg_level lg) (lg_handlers lg ++ [h])) key.

(** [Handler()] of some kind: a new object at NOTSET without formatter. *)
Definition new_handler (kind : HandlerKind) : M Logging nat := λ st,
  let h := fresh (dom (handler_objs st)) in
  (set_handler_objs (<[h := mkPyHandler kind NOTSET None]> (handler_objs st)) st,
   Return h).

Definition Handler_setFormatter (f : Formatter) (h : nat) : M Logging unit :=
  modify (λ st, set_handler_objs
                  (alter (λ o, mkPyHandler (h_kind o) (h_level o) (Some f)) h
                     (handler_objs st)) st).

(** What the caller's frame tells [get_logger] when no name is given:
    [getattr(inspect.getmodule(caller_frame), '__name__', None)] and
    [inspect.getframeinfo(caller_frame).function]. *)
Record Frame := mkFrame {
  frame_module_name : option string;
  frame_function : string
}.

(** Truth value of an [Optional[str]]. *)
Definition truthy (s : option string) : bool :=
  match s with
  | Some s => negb (bool_decide (s = ""))
  | None => false
  end.

(** The name [get_logger] picks when none is given. *)
Definition context_name (caller : Frame) : string :=
  let module_name := frame_module_name caller in
  let func_name := Some (frame_function caller) in
  let func_name :=
    if bool_decide (func_name = Some "<module>") then None else func_name in
  if truthy module_name && truthy func_name
  then default "" module_name +:+ "." +:+ default "" func_name
  else if truthy module_name then default "" module_name
       else if truthy func_name then default "" func_name
            else "<default>".

Section with_logging.
(** [repr] of a string, and [Logger.hasHandlers], which looks at the logger
    and at the loggers it propagates to. *)
Variable repr : string → string.
Variable hasHandlers : Logging → option string → bool.
(** What [open(filename, mode)] raises in the process, [None] when it
    returns the stream: the file system is not part of the state. *)
Variable open_file : string → string → option Exn.

(** [logging._checkLevel] *)
Definition _checkLevel (lvl : LogLevel) : Outcome Z :=
  match lvl with
  | level_int n => Return n
  | level_str s =>
      match (list_to_map _nameToLevel : gmap string Z) !! s with
      | Some n => Return n
      | None => Raise (ValueError ("Unknown level: " +:+ repr s))
      end
  end.

(** [logger.setLevel(level)] and [handler.setLevel(level)] *)
Definition Logger_setLevel (lvl : LogLevel) (key : option string)
    : M Logging unit :=
  match _checkLevel lvl with
  | Return n => update_logger (λ lg, mkPyLogger n (lg_handlers lg)) key
  | Raise e => throw e
  end.

Definition Handler_setLevel (lvl : LogLevel) (h : nat) : M Logging unit :=
  match _checkLevel lvl with
  | Return n =>
      modify (λ st, set_handler_objs
                      (alter (λ o, mkPyHandler (h_kind o) n (h_formatter o)) h
                         (handler_objs st)) st)
  | Raise e => throw e
  end.

(** [get_logger(name, level, *handlers)]; [caller] is the frame of the
    caller. *)
Definition get_logger (name : option string) (caller : Frame)
    (lvl : LogLevel) (handlers : list nat) : M Logging (option string) :=
  let name :=
    match name with
    | Some name => name
    | None => context_name caller
    end in
  logger ← getLogger name;
  match handlers with
  | _ :: _ =>
      update_logger (λ lg, mkPyLogger (lg_level lg) []) logger;;
      for_each (λ h, Logger_addHandler h logger) handlers
  | [] =>
      has ← gets (λ st, hasHandlers st logger);
      if negb has
      then h ← new_handler NullKind; Logger_addHandler h logger
      else mret ()
  end;;
  Logger_setLevel lvl logger;;
  mret logger.

Definition the_formatter : Formatter :=
  mkFormatter "%(asctime)s %(name)s %(levelname)s %(message)s"
    "%Y-%m-%d %H:%M:%S".

(** The frame from which [_get_preconfigured_logger] calls [get_logger]. *)
Definition here : Frame :=
  mkFrame (Some "epic.logging.logger") "_get_preconfigured_logger".

Definition _get_preconfigured_logger (name : string) (lvl : LogLevel)
    (handlers : list nat) : M Logging (option string) :=
  for_each (λ handler,
              Handler_setLevel lvl handler;;
              Handler_setFormatter the_formatter handler) handlers;;
  get_logger (Some name) here lvl handlers.

Definition get_console_logger (name : string) (lvl : LogLevel)
    : M Logging (option string) :=
  h ← new_handler StreamKind;
  _get_preconfigured_logger name lvl [h].

(** [logging.FileHandler(filename=filename, mode=mode)]: the constructor
    opens the file before the handler object is set up, so a file that
    cannot be opened leaves no handler behind. *)
Definition FileHandler (filename mode : string) : M Logging nat :=
  match open_file filename mode with
  | Some e => throw e
  | None => new_handler (FileKind filename mode)
  end.

(** The arguments of a call are evaluated, left to right, before the call. *)
Definition get_file_logger (name filename mode : string) (lvl : LogLevel)
    : M Logging (option string) :=
  h ← FileHandler filename mode;
  _get_preconfigured_logger name lvl [h].

Definition get_file_and_console_logger (name filename mode : string)
    (lvl : LogLevel) : M Logging (option string) :=
  hf ← FileHandler filename mode;
  hc ← new_handler StreamKind;
  _get_preconfigured_logger name lvl [hf; hc].

(** [logger.getChild(suffix)] *)
Definition getChild (self : option string) (suffix : string)
    : M Logging (option string) :=
  match self with
  | None => Manager_getLogger suffix
  | Some name => Manager_getLogger (name +:+ "." +:+ suffix)
  end.

(** [ClassLogger.__get__(obj, obj_class)]: [self_parent] is [self.parent],
    [module] and [class_name] are [obj_class.__module__] and
    [obj_class.__name__]; [caller] is the frame of [__get__]. *)
Definition ClassLogger_get (self_parent : option (option string))
    (module class_name : string) : M Logging (option string) :=
  parent ← match self_parent with
           | None =>
               get_logger (Some module)
                 (mkFrame (Some "epic.logging.logger") "__get__")
                 (level_int NOTSET) []
           | Some p => mret p
           end;
  getChild parent class_name.

End with_logging.

End logger_py.


(** ** Logtor *)

Section Logtor.
Variable repr : string → string.
Variable hasHandlers : logger_py.Logging → option string → bool.
Variable open_file : string → string → option Exn.

(** [Logtor.__init__] up to the call of [super().__init__(logger)]: the
    result is the logger handed to [Logregator.__init__]. *)
Definition Logtor_init (filename : option string) (mode : string)
    (lvl : logger_py.LogLevel) (console : option bool) (name : string)
    : M logger_py.Logging (option string) :=
  let console :=
    match console with
    | None => bool_decide (filename = None)
    | Some c => c
    end in
  match filename with
  | None =>
      if negb console
      then throw (ValueError "must provide a `filename` when `console` is False")
      else logger_py.get_console_logger repr hasHandlers name lvl
  | Some filename =>
      if console
      then logger_py.get_file_and_console_logger repr hasHandlers open_file
             name filename mode lvl
      else logger_py.get_file_logger repr hasHandlers open_file
             name filename mode lvl
  end.

End Logtor.
(** ** Sample values *)

Module Sample.

Definition hello : LogRecord := mkLogRecord "X" INFO (MsgStr "hello") None None ∅.

(** A record the sink logger itself emitted. *)
Definition echo : LogRecord := mkLogRecord "S" INFO (MsgStr "again") None None ∅.

Definition boom : ExcInfo :=
  mkExcInfo "ValueError" "boom" ["  File a.py, line 1, in f"].

Definition failed : LogRecord :=
  mkLogRecord "X" WARNING (MsgStr "failed") (Some (exc_triple boom)) None ∅.

(** The record of [logging.getLogger("X").warning("plain", exc_info=False)]. *)
Definition unflagged : LogRecord :=
  mkLogRecord "X" WARNING (MsgStr "plain") (Some exc_False) None ∅.

Definition format_exception (e : ExcInfo) : list string :=
  ["Traceback (most recent call last):"] ++ exc_traceback e
    ++ [exc_type e +:+ ": " +:+ exc_value e].

(** A sink with a level of its own. *)
Definition S : Logger := mkLogger "S" [INFO] false 0.

(** A process whose root logger has one ordinary handler. *)
Definition w0 : World :=
  mkWorld (mkRoot WARNING [0]) {[ 0 := Other_handler NOTSET ]} ∅
    (λ c, Some (BaseProcess c)) [].

(** The same process after [h = LogregatorHandler(INFO, q)] with reference 1. *)
Definition w1 : World :=
  set_heap (<[1 := Logregator_handler (LogregatorHandler_init INFO 0)]> (heap w0)) w0.

Definition session : Logregator := Logregator_init S 100 "spawn".

(** A target that changes the root level and then raises. *)
Definition failing_target : M World unit :=
  λ w, (root_setLevel DEBUG w, Raise (OtherException "target failed")).

End Sample.

(** ** More sample values *)

Module Scenario.

(** A process with two handler objects that are not installed yet. *)
Definition w2 : World :=
  set_heap (<[2 := Logregator_handler (LogregatorHandler_init DEBUG 1)]>
              (heap Sample.w1)) Sample.w1.

(** A second sink and its session, for nesting. *)
Definition T : Logger := mkLogger "T" [DEBUG] false 0.
Definition inner_session : Logregator := Logregator_init T 100 "fork".



(** A transport whose [put] fails with something else than [queue.Full]. *)
Definition broken_pipe : QueueLike unit :=
  λ q x, (q, Raise (OtherException "BrokenPipeError")).

(** A bounded queue that is full. *)
Definition full_queue : QueueLike unit := λ q x, (q, Raise queue_Full).

End Scenario.

Module Scenario_logging.

(** A registry where the logger ["app"] is at DEBUG with handler 7. *)
Definition st0 : logger_py.Logging :=
  logger_py.mkLogging
    {[ Some "app" := logger_py.mkPyLogger DEBUG [7] ]}
    {[ 7 := logger_py.mkPyHandler logger_py.UserKind NOTSET None;
       8 := logger_py.mkPyHandler logger_py.UserKind NOTSET None;
       9 := logger_py.mkPyHandler logger_py.UserKind NOTSET None ]}.

(** A [hasHandlers] for a flat hierarchy: a logger has handlers when it has
    some of its own or the root logger has some. *)
Definition has_handlers_flat (st : logger_py.Logging) (key : option string)
    : bool :=
  negb (bool_decide (logger_py.lg_handlers (logger_py.the_logger key st) = []))
  || negb (bool_decide (logger_py.lg_handlers (logger_py.the_logger None st) = [])).

(** [repr] of a string without quotes or escapes in it. *)
Definition repr_plain (s : string) : string := "'" +:+ s +:+ "'".

(** A file system where the directory ["/missing"] does not exist and every
    other file can be opened. *)
Definition open_file (filename mode : string) : option Exn :=
  if bool_decide (filename = "/missing/run.log")
  then Some (OtherException "FileNotFoundError")
  else None.

End Scenario_logging.

(** * Specification vocabulary *)

(** What step 3 of the handler's algorithm asks for: the exception, if any,
    rendered into [exc_text], and [exc_info] cleared. *)
Definition exception_rendered (format_exception : ExcInfo → list string)
    (r r' : LogRecord) : Prop :=
  rec_name r' = rec_name r ∧ levelno r' = levelno r ∧ msg r' = msg r ∧
  attrs r' = attrs r ∧ exc_info r' = None ∧
  match exc_info r with
  | Some (exc_triple ei) =>
      exc_text r' = Some (String.concat LF (format_exception ei))
  | Some exc_False => False
  | None => exc_text r' = exc_text r
  end.

(** The attribution of a record: the sink's name, and the origin pid when the
    record comes from another process than the one that created the session. *)
Definition attribution (sink_name : string) (creating_pid origin_pid : Z)
    : string :=
  if bool_decide (origin_pid = creating_pid) then sink_name
  else sink_name +:+ " PID " +:+ pretty origin_pid.

Definition rewritten_message (attr : string) (original : MsgObj) : MsgObj :=
  MsgStr ("[" +:+ attr +:+ "] - " +:+ py_str original).

(** The data-model invariant of a session: started exactly when the handler,
    the channel and the consumer thread are all there. *)
Definition all_present (s : Logregator) : Prop :=
  is_Some (_handler s) ∧ is_Some (_input_queue s) ∧ is_Some (_consumer_thread s).

Definition session_invariant (s : Logregator) : Prop :=
  started s = true ↔ all_present s.

(** A session that works: its consumer thread exists, its channel is open,
    its handler sits on the root logger, bound to that channel at the
    effective level the sink had before the handler was installed (when the
    root level was the one the handler recorded), the root level lets every
    record through, and every context the session covers creates
    [LogregatorProcess]es. *)
Definition session_working (s : Logregator) (w : World) : Prop :=
  started s = true ∧
  _consumer_thread s = Some (mkThread true) ∧
  ∃ q h old,
    _input_queue s = Some q ∧ _handler s = Some h ∧
    queues w !! q = Some new_queue ∧
    heap w !! h = Some (Logregator_handler
                          (mkHandler
                             (getEffectiveLevel (root_setLevel old w) (logger s))
                             q (Some old))) ∧
    h ∈ root_handlers (root w) ∧
    root_level (root w) = (NOTSET + 1)%Z ∧
    (∀ ctx, ctx ∈ map fst (_old_process s) →
            Process w ctx = Some LogregatorProcess_cls).

(** A tagged record passes the consumer, in the process state [w], when the
    sink is enabled for its level there and it is not the sink's own output
    coming back from the process that created the session. *)
Definition passes (w : World) (s : Logregator) (x : Z * LogRecord) : bool :=
  isEnabledFor w (logger s) (levelno x.2)
  && negb (bool_decide (x.1 = my_pid s)
           && bool_decide (rec_name x.2 = logger_name (logger s))).

(** What the sink receives for a tagged record that passes. *)
Definition forwarded (s : Logregator) (x : Z * LogRecord) : LogRecord :=
  mark_as_handled
    (set_msg (rewritten_message
                (attribution (logger_name (logger s)) (my_pid s) x.1)
                (msg x.2)) x.2).

(** The logger [logging.getLogger(name)] answers with. *)
Definition logger_key (name : string) : option string :=
  if bool_decide (name = "") || bool_decide (name = "root") then None
  else Some name.

(** The handler objects a logger holds, in order. *)
Definition handlers_of (st : logger_py.Logging) (key : option string)
    : list (option logger_py.PyHandler) :=
  map (λ h, logger_py.handler_objs st !! h)
      (logger_py.lg_handlers (logger_py.the_logger key st)).

(** A handler as the preconfigured constructors leave it. *)
Definition configured (kind : logger_py.HandlerKind) (n : Z)
    : option logger_py.PyHandler :=
  Some (logger_py.mkPyHandler kind n (Some logger_py.the_formatter)).

(** The logger [parent.getChild(suffix)] answers with: a child of the root
    logger is named by the suffix alone. *)
Definition child_key (parent : option string) (suffix : string) : option string :=
  match parent with
  | None => Some suffix
  | Some name => Some (name +:+ "." +:+ suffix)
  end.

(** * Properties *)

(** ** The handled-marker *)

Lemma is_handled_unmarked (r : LogRecord) :
  attrs r !! _MARK_OF_THE_LOGREGATOR = None → is_handled r = false.
Proof. unfold is_handled, getattr. by intros ->. Qed.

Lemma is_handled_mark (r : LogRecord) : is_handled (mark_as_handled r) = true.
Proof.
  unfold is_handled, mark_as_handled, getattr, setattr; simpl.
  by rewrite lookup_insert_eq.
Qed.

Lemma mark_as_handled_idem (r : LogRecord) :
  mark_as_handled (mark_as_handled r) = mark_as_handled r.
Proof.
  unfold mark_as_handled, setattr; simpl. f_equal. apply insert_insert_eq.
Qed.

(** C10. A record on which the marker attribute was never set is not handled;
    after [mark_as_handled] every record is handled, whatever it carried
    before; and marking a marked record changes nothing. *)
Theorem handled_marker_laws (fresh_record : LogRecord) :
  attrs fresh_record !! _MARK_OF_THE_LOGREGATOR = None →
  is_handled fresh_record = false ∧
  (∀ r, is_handled (mark_as_handled r) = true) ∧
  (∀ r, mark_as_handled (mark_as_handled r) = mark_as_handled r).
Proof.
  intros Hnew. split; [by apply is_handled_unmarked|].
  split; [apply is_handled_mark | apply mark_as_handled_idem].
Qed.

Lemma handled_marker_laws_witness :
  is_handled Sample.hello = false ∧
  (∀ r, is_handled (mark_as_handled r) = true) ∧
  (∀ r, mark_as_handled (mark_as_handled r) = mark_as_handled r).
Proof. apply (handled_marker_laws Sample.hello). reflexivity. Defined.

(** ** [emit] *)

Lemma exception_rendered_intro (format_exception : ExcInfo → list string)
    (r : LogRecord) :
  exc_info r ≠ Some exc_False →
  exception_rendered format_exception r
    match exc_info r with
    | Some (exc_triple ei) =>
        set_exc_info None
          (set_exc_text (Some (String.concat LF (format_exception ei))) r)
    | _ => r
    end.
Proof.
  unfold exception_rendered. intros Hne.
  destruct (exc_info r) as [[ei|]|] eqn:E; simpl; rewrite ?E; auto 10.
  by destruct Hne.
Qed.

Lemma emit_accepts {Q : Type} `{QueueLike Q}
    (format_exception : ExcInfo → list string)
    (self : LogregatorHandler) (pid : Z) (record : LogRecord) (q : Q) :
  is_handled record = false → (level self ≤ levelno record)%Z →
  exc_info record ≠ Some exc_False →
  ∃ record',
    exception_rendered format_exception record record' ∧
    emit format_exception self pid record q
    = match put q (pid, record') with
      | (q', Raise queue_Full) => (record', q', Return ())
      | (q', o) => (record', q', o)
      end.
Proof.
  intros Hm Hle Hne. eexists. split; [by apply exception_rendered_intro|].
  unfold emit. rewrite Hm, bool_decide_eq_true_2 by done.
  by destruct (exc_info record) as [[ei|]|].
Qed.

Lemma emit_exc_False {Q : Type} `{QueueLike Q}
    (format_exception : ExcInfo → list string)
    (self : LogregatorHandler) (pid : Z) (record : LogRecord) (q : Q) :
  is_handled record = false → (level self ≤ levelno record)%Z →
  exc_info record = Some exc_False →
  emit format_exception self pid record q = (record, q, Raise TypeError).
Proof.
  intros Hm Hle He. unfold emit.
  by rewrite Hm, bool_decide_eq_true_2, He.
Qed.

(** C5. What [emit] does of the four steps, and where it leaves them. A
    marked record is left alone and nothing is enqueued; so is a record below
    the handler's level. Otherwise, on a record whose [exc_info] is [None] or
    an exception triple, the exception is rendered and cleared, [put] is
    called once with the current pid and that record, a [queue.Full] from
    [put] is swallowed, and a successful [put] makes [emit] return normally;
    on the channel of the session [emit] then returns, and a closed channel
    keeps its contents. But on a record that carries no exception and whose
    [exc_info] is [False], as a log call with [exc_info=False] leaves it,
    [emit] raises [TypeError] to the log call site and enqueues nothing. *)
Theorem emit_four_steps {Q : Type} `{QueueLike Q}
    (format_exception : ExcInfo → list string)
    (self : LogregatorHandler) (pid : Z) (record : LogRecord) (q : Q) :
  (is_handled record = true →
     emit format_exception self pid record q = (record, q, Return ())) ∧
  (is_handled record = false → (levelno record < level self)%Z →
     emit format_exception self pid record q = (record, q, Return ())) ∧
  (is_handled record = false → (level self ≤ levelno record)%Z →
     exc_info record ≠ Some exc_False →
     ∃ record',
       exception_rendered format_exception record record' ∧
       (emit format_exception self pid record q).1.1 = record' ∧
       (emit format_exception self pid record q).1.2 = (put q (pid, record')).1 ∧
       ((put q (pid, record')).2 = Raise queue_Full ∨
        (put q (pid, record')).2 = Return () →
        (emit format_exception self pid record q).2 = Return ())) ∧
  (∀ ch : IterableQueue,
     is_handled record = false → (level self ≤ levelno record)%Z →
     exc_info record ≠ Some exc_False →
     (emit format_exception self pid record ch).2 = Return () ∧
     (closed ch = true → (emit format_exception self pid record ch).1.2 = ch) ∧
     (closed ch = false →
      ∃ record', exception_rendered format_exception record record' ∧
        items (emit format_exception self pid record ch).1.2
        = items ch ++ [(pid, record')])) ∧
  (is_handled record = false → (level self ≤ levelno record)%Z →
     exc_info record = Some exc_False →
     emit format_exception self pid record q = (record, q, Raise TypeError)) ∧
  is_handled Sample.unflagged = false ∧
  emit Sample.format_exception (LogregatorHandler_init INFO 0) pid
    Sample.unflagged new_queue
  = (Sample.unflagged, new_queue, Raise TypeError).
Proof.
  split_and!.
  - intros Hm. unfold emit. by rewrite Hm.
  - intros Hm Hlt. unfold emit. rewrite Hm.
    rewrite bool_decide_eq_false_2; [done | lia].
  - intros Hm Hle Hne.
    destruct (emit_accepts format_exception self pid record q Hm Hle Hne)
      as (record' & Hr & ->).
    exists record'. split; [done|].
    destruct (put q (pid, record')) as [q' [[]|e]]; [|destruct e]; simpl;
      split_and!; try done; intros [?|?]; congruence.
  - intros ch Hm Hle Hne.
    destruct (emit_accepts format_exception self pid record ch Hm Hle Hne)
      as (record' & Hr & ->).
    unfold put, IterableQueue_put.
    destruct (closed ch) eqn:Hc; simpl.
    + by split_and!.
    + split_and!; try done. intros _. by exists record'.
  - apply emit_exc_False.
  - reflexivity.
  - reflexivity.
Qed.

Lemma emit_four_steps_witness :
  emit Sample.format_exception (LogregatorHandler_init INFO 0) 7
    (mark_as_handled Sample.hello) new_queue
  = (mark_as_handled Sample.hello, new_queue, Return ()) ∧
  emit Sample.format_exception (LogregatorHandler_init WARNING 0) 7
    Sample.hello new_queue
  = (Sample.hello, new_queue, Return ()) ∧
  (emit Sample.format_exception (LogregatorHandler_init INFO 0) 7
     Sample.failed (no_more_input new_queue)).2 = Return () ∧
  (@emit unit Scenario.full_queue Sample.format_exception
     (LogregatorHandler_init INFO 0) 7 Sample.failed ()).2 = Return () ∧
  emit Sample.format_exception (LogregatorHandler_init INFO 0) 7
    Sample.unflagged (no_more_input new_queue)
  = (Sample.unflagged, no_more_input new_queue, Raise TypeError).
Proof.
  split_and!.
  - apply (proj1 (emit_four_steps Sample.format_exception
                    (LogregatorHandler_init INFO 0) 7
                    (mark_as_handled Sample.hello) new_queue)).
    reflexivity.
  - apply (proj1 (proj2 (emit_four_steps Sample.format_exception
                           (LogregatorHandler_init WARNING 0) 7
                           Sample.hello new_queue))); reflexivity.
  - apply (proj1 (proj2 (proj2 (proj2 (emit_four_steps Sample.format_exception
                                  (LogregatorHandler_init INFO 0) 7
                                  Sample.failed new_queue))))
             (no_more_input new_queue)).
    + reflexivity.
    + vm_compute. discriminate.
    + discriminate.
  - destruct (proj1 (proj2 (proj2 (@emit_four_steps unit Scenario.full_queue
                                     Sample.format_exception
                                     (LogregatorHandler_init INFO 0) 7
                                     Sample.failed ()))))
      as (record' & _ & _ & _ & Hout).
    + reflexivity.
    + vm_compute. discriminate.
    + discriminate.
    + apply Hout. left. reflexivity.
  - apply (proj1 (proj2 (proj2 (proj2 (proj2
             (emit_four_steps Sample.format_exception
                (LogregatorHandler_init INFO 0) 7
                Sample.unflagged (no_more_input new_queue)))))));
      [reflexivity | vm_compute; discriminate | reflexivity].
Defined.

(** ** [install] and [uninstall] *)

Lemma list_remove_first_app_new (x : nat) (l : list nat) :
  x ∉ l → list_remove_first x (l ++ [x]) = l.
Proof.
  induction l as [|y l IH]; simpl; intros Hx.
  - by rewrite bool_decide_eq_true_2.
  - apply not_elem_of_cons in Hx as [Hne Hx].
    rewrite bool_decide_eq_false_2 by done. by rewrite IH.
Qed.

Lemma list_remove_first_subseteq (x : nat) (l : list nat) :
  list_remove_first x l ⊆ l.
Proof.
  induction l as [|y l IH]; simpl; [done|].
  case_bool_decide as Hxy; intros z Hz.
  - by right.
  - apply elem_of_cons in Hz as [->|Hz]; [left | right; by apply IH].
Qed.

Lemma root_eta (r : RootLogger) : mkRoot (root_level r) (root_handlers r) = r.
Proof. by destruct r. Qed.

Lemma install_registered (self : nat) (w : World) :
  self ∈ root_handlers (root w) → install self w = w.
Proof. intros Hin. unfold install. by rewrite bool_decide_eq_true_2. Qed.

Lemma install_root (self : nat) (w : World) :
  self ∉ root_handlers (root w) →
  root (install self w) = mkRoot (NOTSET + 1) (root_handlers (root w) ++ [self]).
Proof.
  intros Hnin. unfold install. rewrite bool_decide_eq_false_2 by done.
  unfold root_addHandler; simpl. by rewrite bool_decide_eq_false_2.
Qed.

Lemma install_heap (self : nat) (w : World) :
  self ∉ root_handlers (root w) →
  heap (install self w)
  = heap (set_old_root_level self (Some (root_level (root w))) w).
Proof.
  intros Hnin. unfold install. rewrite bool_decide_eq_false_2 by done.
  unfold root_addHandler; simpl. by rewrite bool_decide_eq_false_2.
Qed.

Lemma install_old_root_level (self : nat) (w : World) (h : LogregatorHandler) :
  heap w !! self = Some (Logregator_handler h) →
  self ∉ root_handlers (root w) →
  old_root_level_of self (install self w) = Some (root_level (root w)).
Proof.
  intros Hh Hnin. unfold old_root_level_of. rewrite install_heap by done.
  simpl. by rewrite lookup_alter_eq, Hh.
Qed.

Lemma install_elem (self : nat) (w : World) :
  self ∈ root_handlers (root (install self w)).
Proof.
  destruct (decide (self ∈ root_handlers (root w))) as [Hin|Hnin].
  - by rewrite install_registered.
  - rewrite install_root by done. simpl. set_solver.
Qed.

Lemma uninstall_registered (self : nat) (w : World) (lvl : Z) :
  self ∈ root_handlers (root w) →
  old_root_level_of self w = Some lvl →
  uninstall self w
  = (root_setLevel lvl (root_removeHandler self w), Return ()).
Proof.
  intros Hin Hold. unfold uninstall. by rewrite bool_decide_eq_true_2, Hold.
Qed.

Lemma uninstall_unregistered (self : nat) (w : World) :
  self ∉ root_handlers (root w) → uninstall self w = (w, Return ()).
Proof. intros Hnin. unfold uninstall. by rewrite bool_decide_eq_false_2. Qed.

(** C7. [install] on a registered handler changes nothing. On an unregistered
    one it records the root logger's level in the handler, sets the root level
    to [NOTSET + 1], below which no positive level lies, and appends the
    handler to the root's handlers. [uninstall] on a registered handler with a
    recorded level removes it and sets the root level to the recorded one; so
    [install] followed by [uninstall] gives back the root logger's level and
    handler list. *)
Theorem install_uninstall_roundtrip (w : World) (self : nat)
    (h : LogregatorHandler) :
  heap w !! self = Some (Logregator_handler h) →
  (self ∈ root_handlers (root w) → install self w = w) ∧
  (self ∉ root_handlers (root w) →
     old_root_level_of self (install self w) = Some (root_level (root w)) ∧
     root_level (root (install self w)) = (NOTSET + 1)%Z ∧
     (∀ lvl, (NOTSET < lvl)%Z → (root_level (root (install self w)) ≤ lvl)%Z) ∧
     root_handlers (root (install self w)) = root_handlers (root w) ++ [self] ∧
     ∃ w', uninstall self (install self w) = (w', Return ()) ∧
           (self ∉ root_handlers (root w')) ∧
           root w' = root w) ∧
  (∀ lvl, self ∈ root_handlers (root w) →
     old_root_level_of self w = Some lvl →
     ∃ w', uninstall self w = (w', Return ()) ∧
           root_level (root w') = lvl ∧
           root_handlers (root w') = list_remove_first self (root_handlers (root w))).
Proof.
  intros Hh. split; [apply install_registered|]. split.
  - intros Hnin.
    split; [by eapply install_old_root_level|].
    rewrite install_root by done; simpl.
    split; [done|]. split; [unfold NOTSET; lia|]. split; [done|].
    eexists. split.
    + apply uninstall_registered; [apply install_elem|].
      by eapply install_old_root_level.
    + unfold root_removeHandler. rewrite bool_decide_eq_true_2 by apply install_elem.
      simpl. rewrite install_root by done; simpl.
      rewrite list_remove_first_app_new by done.
      split; [done | apply root_eta].
  - intros lvl Hin Hold. eexists. split; [by apply uninstall_registered|].
    unfold root_removeHandler. by rewrite bool_decide_eq_true_2.
Qed.

Lemma install_uninstall_roundtrip_witness :
  install 1 Sample.w1 ≠ Sample.w1 ∧
  (uninstall 1 (install 1 Sample.w1)).2 = Return () ∧
  root (uninstall 1 (install 1 Sample.w1)).1 = root Sample.w1.
Proof.
  destruct (install_uninstall_roundtrip Sample.w1 1 (LogregatorHandler_init INFO 0))
    as (_ & Hfresh & _); [reflexivity|].
  destruct Hfresh as (_ & Hlvl & _ & _ & w' & Hun & _ & Hroot).
  { vm_compute. intros Hin. apply list_elem_of_In in Hin. simpl in Hin. lia. }
  split.
  - intros Heq. rewrite Heq in Hlvl. vm_compute in Hlvl. discriminate.
  - by rewrite Hun.
Defined.

(** C2 as stated fails: a handler that was constructed and never installed
    is uninstalled without any error, and nothing changes. *)
Lemma uninstall_never_installed_returns :
  old_root_level_of 1 Sample.w1 = None ∧
  (1 ∉ root_handlers (root Sample.w1)) ∧
  uninstall 1 Sample.w1 = (Sample.w1, Return ()).
Proof.
  split; [reflexivity|]. split; [|reflexivity].
  vm_compute. intros Hin. apply list_elem_of_In in Hin. simpl in Hin. lia.
Qed.

(** C2, amended. [uninstall] raises, with a [RuntimeError], exactly when the
    handler is registered on the root logger and has no recorded level; on a
    handler that is not registered it returns normally and changes nothing. *)
Theorem uninstall_raises_iff (w : World) (self : nat) :
  (self ∉ root_handlers (root w) → uninstall self w = (w, Return ())) ∧
  ((∃ e, (uninstall self w).2 = Raise e) ↔
     self ∈ root_handlers (root w) ∧ old_root_level_of self w = None) ∧
  (∀ e, (uninstall self w).2 = Raise e →
     e = RuntimeError
           "Cannot uninstall, LogregatorHandler was not properly installed." ∧
     (uninstall self w).1 = w).
Proof.
  split; [apply uninstall_unregistered|].
  unfold uninstall. case_bool_decide as Hin.
  - destruct (old_root_level_of self w) as [lvl|]; simpl.
    + split; [|done]. split; [by intros [e ?] | by intros [_ ?]].
    + split; [|by intros e [= <-]]. split; [done | eauto].
  - simpl. split; [|done]. split; [by intros [e ?] | by intros [? _]].
Qed.

Lemma uninstall_raises_iff_witness :
  uninstall 1 Sample.w1 = (Sample.w1, Return ()) ∧
  ∃ e, (uninstall 1 (root_addHandler 1 Sample.w1)).2 = Raise e.
Proof.
  split.
  - apply (uninstall_raises_iff Sample.w1 1).
    vm_compute. intros Hin. apply list_elem_of_In in Hin. simpl in Hin. lia.
  - apply (uninstall_raises_iff (root_addHandler 1 Sample.w1) 1).
    split; [|reflexivity]. vm_compute. apply list_elem_of_In. simpl. lia.
Defined.

(** ** The consumer loop *)

Lemma consume_one_dispatched (w : World) (self : Logregator) (pid : Z)
    (record record' : LogRecord) :
  consume_one w self (pid, record) = (record', true) →
  record' = mark_as_handled
              (set_msg (rewritten_message
                          (attribution (logger_name (logger self)) (my_pid self) pid)
                          (msg record)) record) ∧
  isEnabledFor w (logger self) (levelno record) = true ∧
  ¬ (pid = my_pid self ∧ rec_name record = logger_name (logger self)).
Proof.
  unfold consume_one, attribution, rewritten_message.
  destruct (isEnabledFor _ _); simpl; [|done].
  case_bool_decide as Hpid.
  - rewrite bool_decide_eq_false_2 by congruence.
    intros [= <-]. split; [done|]. split; [done|]. intros [-> _]. done.
  - rewrite (bool_decide_eq_true_2 (pid = my_pid self)) by done.
    case_bool_decide as Hname; [done|].
    intros [= <-]. split; [done|]. split; [done|]. by intros [_ ?].
Qed.

Lemma _consume_logs_proc_app (w : World) (self : Logregator)
    (a b : list (Z * LogRecord)) (sink : list LogRecord) :
  _consume_logs_proc w self (a ++ b) sink
  = _consume_logs_proc w self b (_consume_logs_proc w self a sink).
Proof.
  revert sink. induction a as [|x a IH]; intros sink; simpl; [done|].
  destruct (consume_one w self x) as [record dispatched]. apply IH.
Qed.

Lemma _consume_logs_proc_elem (w : World) (self : Logregator)
    (input : list (Z * LogRecord)) (sink : list LogRecord) (r' : LogRecord) :
  r' ∈ _consume_logs_proc w self input sink →
  r' ∈ sink ∨ ∃ pid record, (pid, record) ∈ input ∧
                consume_one w self (pid, record) = (r', true).
Proof.
  revert sink. induction input as [|[pid record] input IH]; intros sink; simpl.
  - by left.
  - destruct (consume_one w self (pid, record)) as [r d] eqn:E.
    intros [Hin|(pid' & record' & Hin & Hc)]%IH.
    + destruct d.
      * apply elem_of_app in Hin as [Hin|Hin]; [by left|].
        apply list_elem_of_singleton in Hin as ->.
        right. exists pid, record. split; [left | done].
      * by left.
    + right. exists pid', record'. split; [by right | done].
Qed.

(** C3. Every record the consumer loop hands to the sink comes from a tagged
    record [(origin_pid, record)] of the channel and carries the message
    ["[<attribution>] - <original message>"], the attribution being the sink's
    name, followed by [" PID <origin_pid>"] exactly when the origin pid is not
    the session's; the rest of the record is kept. With sink ["S"], a worker
    of pid 4242 and the message ["hello"] the sink receives
    ["[S PID 4242] - hello"], and ["[S] - hello"] from the session's own
    process. *)
Theorem dispatched_message_rewritten (w : World) (self : Logregator)
    (input : list (Z * LogRecord)) (r' : LogRecord) :
  r' ∈ _consume_logs_proc w self input [] →
  (∃ origin_pid record,
     (origin_pid, record) ∈ input ∧
     msg r' = MsgStr ("[" +:+ attribution (logger_name (logger self))
                                 (my_pid self) origin_pid
                        +:+ "] - " +:+ py_str (msg record)) ∧
     rec_name r' = rec_name record ∧ levelno r' = levelno record ∧
     exc_info r' = exc_info record ∧ exc_text r' = exc_text record) ∧
  (∀ origin_pid,
     attribution (logger_name (logger self)) (my_pid self) origin_pid
     = if bool_decide (origin_pid ≠ my_pid self)
       then logger_name (logger self) +:+ " PID " +:+ pretty origin_pid
       else logger_name (logger self)) ∧
  map msg (_consume_logs_proc w Sample.session [(4242%Z, Sample.hello)] [])
  = [MsgStr "[S PID 4242] - hello"] ∧
  map msg (_consume_logs_proc w Sample.session
             [(my_pid Sample.session, Sample.hello)] [])
  = [MsgStr "[S] - hello"].
Proof.
  intros Hin. split; [|split; [|split; reflexivity]].
  - apply _consume_logs_proc_elem in Hin as [Hin|(pid & record & Hin & Hc)].
    { by apply elem_of_nil in Hin. }
    apply consume_one_dispatched in Hc as (-> & _ & _).
    exists pid, record. by repeat split.
  - intros pid. unfold attribution.
    repeat case_bool_decide; done.
Qed.

Lemma dispatched_message_rewritten_witness :
  ∃ origin_pid record,
    (origin_pid, record) ∈ [(4242%Z, Sample.hello)] ∧
    MsgStr "[S PID 4242] - hello"
    = MsgStr ("[" +:+ attribution "S" 100 origin_pid +:+ "] - " +:+ py_str (msg record)).
Proof.
  destruct (dispatched_message_rewritten Sample.w0 Sample.session
              [(4242%Z, Sample.hello)]
              (mark_as_handled (set_msg (MsgStr "[S PID 4242] - hello") Sample.hello)))
    as [(pid & record & Hin & Hmsg & _) _].
  { vm_compute. left. }
  exists pid, record. split; [exact Hin | exact Hmsg].
Defined.

(** Cycle prevention: what the loop hands to the sink carries the marker, so
    a [LogregatorHandler] that sees the sink's dispatch ignores it. *)
Lemma dispatched_is_ignored {Q : Type} `{QueueLike Q}
    (format_exception : ExcInfo → list string) (w : World) (self : Logregator)
    (input : list (Z * LogRecord)) (r' : LogRecord)
    (hdlr : LogregatorHandler) (pid : Z) (q : Q) :
  r' ∈ _consume_logs_proc w self input [] →
  is_handled r' = true ∧
  emit format_exception hdlr pid r' q = (r', q, Return ()).
Proof.
  intros Hin. apply _consume_logs_proc_elem in Hin as [Hin|(p & r & _ & Hc)].
  { by apply elem_of_nil in Hin. }
  apply consume_one_dispatched in Hc as (-> & _ & _).
  split; [apply is_handled_mark|].
  unfold emit. by rewrite is_handled_mark.
Qed.

(** C4. A tagged record that passes the sink's level check, whose origin pid
    is the session's and whose logger name is the sink's, is dropped by its
    iteration: the record is left as it was, [handle] is not called, and the
    loop delivers to the sink exactly what it delivers without that record. *)
Theorem self_echo_dropped (w : World) (self : Logregator) (origin_pid : Z)
    (record : LogRecord) (before after : list (Z * LogRecord))
    (sink : list LogRecord) :
  isEnabledFor w (logger self) (levelno record) = true →
  origin_pid = my_pid self →
  rec_name record = logger_name (logger self) →
  consume_one w self (origin_pid, record) = (record, false) ∧
  _consume_logs_proc w self (before ++ (origin_pid, record) :: after) sink
  = _consume_logs_proc w self (before ++ after) sink.
Proof.
  intros Hen -> Hname.
  assert (Hone : consume_one w self (my_pid self, record) = (record, false)).
  { unfold consume_one. rewrite Hen; simpl.
    rewrite bool_decide_eq_false_2 by (intros Hne; by apply Hne).
    by rewrite bool_decide_eq_true_2. }
  split; [done|].
  rewrite !_consume_logs_proc_app. simpl. by rewrite Hone.
Qed.

Lemma self_echo_dropped_witness :
  consume_one Sample.w0 Sample.session (100%Z, Sample.echo)
  = (Sample.echo, false) ∧
  _consume_logs_proc Sample.w0 Sample.session
    ([(4242%Z, Sample.hello)] ++ (100%Z, Sample.echo) :: [(100%Z, Sample.hello)]) []
  = _consume_logs_proc Sample.w0 Sample.session
      ([(4242%Z, Sample.hello)] ++ [(100%Z, Sample.hello)]) [].
Proof.
  apply (self_echo_dropped Sample.w0 Sample.session 100 Sample.echo
           [(4242%Z, Sample.hello)] [(100%Z, Sample.hello)] []); reflexivity.
Defined.

(** ** LogregatorProcess *)

Lemma list_remove_first_NoDup (x : nat) (l : list nat) :
  NoDup l → NoDup (list_remove_first x l) ∧ x ∉ list_remove_first x l.
Proof.
  induction 1 as [|y l Hy Hl IH]; simpl.
  - split; [constructor | apply not_elem_of_nil].
  - case_bool_decide as Hxy.
    + subst y. done.
    + destruct IH as [IH1 IH2]. split.
      * constructor; [|done]. intros Hin. apply Hy.
        by apply (list_remove_first_subseteq x l).
      * by apply not_elem_of_cons.
Qed.

Lemma fresh_ref_spec (w : World) :
  heap w !! fresh_ref w = None ∧ fresh_ref w ∉ root_handlers (root w).
Proof.
  pose proof (is_fresh (dom (heap w) ∪ list_to_set (root_handlers (root w))
                          : gset nat)) as Hf.
  fold (fresh_ref w) in Hf. apply not_elem_of_union in Hf as [Hd Hl].
  split.
  - by apply not_elem_of_dom.
  - intros Hin. apply Hl. by apply elem_of_list_to_set.
Qed.

Lemma construct_handlers_spec (snapshot : list (Z * nat)) (w : World) :
  ∃ w' hs,
    construct_handlers snapshot w = (w', Return hs) ∧
    root w' = root w ∧ queues w' = queues w ∧
    Process w' = Process w ∧ handled w' = handled w ∧
    NoDup hs ∧
    (∀ k, k ∈ hs → heap w !! k = None ∧ k ∉ root_handlers (root w)) ∧
    (∀ k, k ∉ hs → heap w' !! k = heap w !! k) ∧
    Forall2 (λ k e, heap w' !! k
                    = Some (Logregator_handler (LogregatorHandler_init e.1 e.2)))
      hs snapshot.
Proof.
  revert w. induction snapshot as [|[lvl q] rest IH]; intros w.
  - exists w, []. simpl.
    split_and!; try done;
      first [ by constructor | intros k Hk; by apply elem_of_nil in Hk ].
  - destruct (fresh_ref_spec w) as [Hnone Hnin].
    set (wa := set_heap (<[fresh_ref w := Logregator_handler
                                            (LogregatorHandler_init lvl q)]> (heap w)) w).
    destruct (IH wa) as (w' & hs & Hc & Hr & Hq & HP & Hh & Hnd & Hfresh & Hkeep & Hall).
    assert (Hk0 : fresh_ref w ∉ hs).
    { intros Hin. apply Hfresh in Hin as [Hin _].
      unfold wa in Hin; simpl in Hin. by rewrite lookup_insert_eq in Hin. }
    exists w', (fresh_ref w :: hs).
    split.
    { simpl. unfold mbind, M_bind, new_handler. fold wa. by rewrite Hc. }
    split_and!; try done.
    + by constructor.
    + intros k [->|Hin]%elem_of_cons; [done|]. split.
      * apply Hfresh in Hin as [Hin _]. unfold wa in Hin; simpl in Hin.
        apply lookup_insert_None in Hin. tauto.
      * by apply Hfresh in Hin as [_ Hin].
    + intros k Hk. apply not_elem_of_cons in Hk as [Hne Hk].
      rewrite Hkeep by done. unfold wa; simpl. by rewrite lookup_insert_ne.
    + constructor; [|done]. simpl. rewrite Hkeep by done.
      unfold wa; simpl. by rewrite lookup_insert_eq.
Qed.

Lemma install_frame (k : nat) (w : World) :
  queues (install k w) = queues w ∧ Process (install k w) = Process w ∧
  handled (install k w) = handled w ∧
  (∀ k', k' ≠ k → heap (install k w) !! k' = heap w !! k').
Proof.
  unfold install. case_bool_decide as Hin; [done|].
  unfold root_addHandler; simpl. rewrite bool_decide_eq_false_2 by done.
  simpl. split_and!; try done.
  intros k' Hne. by rewrite lookup_alter_ne.
Qed.

Lemma install_heap_self (k : nat) (w : World) (h : LogregatorHandler) :
  k ∉ root_handlers (root w) →
  heap w !! k = Some (Logregator_handler h) →
  heap (install k w) !! k
  = Some (Logregator_handler
            (mkHandler (level h) (output_queue h) (Some (root_level (root w))))).
Proof.
  intros Hnin Hh. rewrite install_heap by done. simpl.
  by rewrite lookup_alter_eq, Hh.
Qed.

Lemma for_each_cons {S A} (body : A → M S unit) (x : A) (xs : list A) (s : S) :
  for_each body (x :: xs) s
  = match body x s with
    | (s', Return _) => for_each body xs s'
    | (s', Raise e) => (s', Raise e)
    end.
Proof. reflexivity. Qed.

Lemma install_all_spec (hs : list nat) (w : World) :
  NoDup hs →
  (∀ k, k ∈ hs → k ∉ root_handlers (root w)) →
  ∃ w',
    for_each (λ h, modify (install h)) hs w = (w', Return ()) ∧
    root_handlers (root w') = root_handlers (root w) ++ hs ∧
    queues w' = queues w ∧ Process w' = Process w ∧ handled w' = handled w ∧
    (∀ k, k ∉ hs → heap w' !! k = heap w !! k) ∧
    (∀ k h, k ∈ hs → heap w !! k = Some (Logregator_handler h) →
       ∃ old, heap w' !! k
              = Some (Logregator_handler
                        (mkHandler (level h) (output_queue h) (Some old)))).
Proof.
  intros Hnd. revert w. induction Hnd as [|k hs Hk Hnd IH]; intros w Hout.
  - exists w. simpl. rewrite app_nil_r. split_and!; try done.
    intros k h Hk. by apply elem_of_nil in Hk.
  - assert (Hkw : k ∉ root_handlers (root w)) by (apply Hout; left).
    destruct (install_frame k w) as (Hq & HP & Hh & Hother).
    destruct (IH (install k w)) as (w' & Hrun & Hrh & Hq' & HP' & Hh' & Hkeep & Hset).
    { intros k' Hin. rewrite install_root by done. simpl.
      apply not_elem_of_app. split; [apply Hout; by right|].
      intros ->%list_elem_of_singleton. done. }
    exists w'. split_and!.
    + rewrite for_each_cons. unfold modify at 1. by rewrite Hrun.
    + rewrite Hrh, install_root by done. simpl. by rewrite <- app_assoc.
    + congruence.
    + congruence.
    + congruence.
    + intros k' [Hne Hk']%not_elem_of_cons. rewrite Hkeep by done. by apply Hother.
    + intros k' h [->|Hin]%elem_of_cons Hheap.
      * exists (root_level (root w)). rewrite Hkeep by done.
        by apply install_heap_self.
      * apply Hset; [done|]. rewrite Hother; [done|]. by intros ->.
Qed.

Lemma uninstall_all_spec (hs : list nat) (w : World) :
  NoDup (root_handlers (root w)) →
  (∀ k, k ∈ hs → k ∈ root_handlers (root w) → is_Some (old_root_level_of k w)) →
  ∃ w',
    for_each uninstall hs w = (w', Return ()) ∧
    heap w' = heap w ∧ queues w' = queues w ∧
    Process w' = Process w ∧ handled w' = handled w ∧
    NoDup (root_handlers (root w')) ∧
    root_handlers (root w') ⊆ root_handlers (root w) ∧
    (∀ k, k ∈ hs → k ∉ root_handlers (root w')).
Proof.
  revert w. induction hs as [|k hs IH]; intros w Hnd Hrec.
  - exists w. simpl. split_and!; try done.
    intros k Hk. by apply elem_of_nil in Hk.
  - destruct (decide (k ∈ root_handlers (root w))) as [Hin|Hnin].
    + destruct (Hrec k) as [lvl Hlvl]; [by left | done |].
      destruct (list_remove_first_NoDup k _ Hnd) as [Hnd' Hgone].
      pose proof (list_remove_first_subseteq k (root_handlers (root w))) as Hsub.
      set (wa := root_setLevel lvl (root_removeHandler k w)).
      assert (Hrh : root_handlers (root wa)
                    = list_remove_first k (root_handlers (root w))).
      { unfold wa, root_removeHandler. by rewrite bool_decide_eq_true_2. }
      assert (Hframe : heap wa = heap w ∧ queues wa = queues w ∧
                       Process wa = Process w ∧ handled wa = handled w).
      { unfold wa, root_removeHandler. by rewrite bool_decide_eq_true_2. }
      destruct Hframe as (Hh & Hq & HP & Hhd).
      destruct (IH wa) as (w' & Hrun & Hh' & Hq' & HP' & Hhd' & Hnd'' & Hsub' & Hall).
      { by rewrite Hrh. }
      { intros k' Hk' Hin'. rewrite Hrh in Hin'.
        unfold old_root_level_of. rewrite Hh.
        apply Hrec; [by right | by apply Hsub]. }
      exists w'. split_and!; try congruence.
      * rewrite for_each_cons.
        rewrite (uninstall_registered k w lvl) by done. by fold wa.
      * intros x Hx. apply Hsub. rewrite <- Hrh. by apply Hsub'.
      * intros k' [->|Hk']%elem_of_cons; [|by apply Hall].
        intros Hx. apply Hgone. rewrite <- Hrh. by apply Hsub'.
    + destruct (IH w) as (w' & Hrun & Hh' & Hq' & HP' & Hhd' & Hnd'' & Hsub' & Hall).
      { done. }
      { intros k' Hk' Hin'. apply Hrec; [by right | done]. }
      exists w'. split_and!; try done.
      * rewrite for_each_cons.
        by rewrite (uninstall_unregistered k w) by done.
      * intros k' [->|Hk']%elem_of_cons; [|by apply Hall].
        intros Hx. apply Hnin. by apply Hsub'.
Qed.

Lemma LogregatorProcess_init_elem (w : World) (lvl : Z) (q : nat) :
  (lvl, q) ∈ LogregatorProcess_init w ↔
  ∃ k h, k ∈ root_handlers (root w) ∧
         heap w !! k = Some (Logregator_handler h) ∧
         level h = lvl ∧ output_queue h = q.
Proof.
  unfold LogregatorProcess_init. rewrite list_elem_of_omap. split.
  - intros (k & Hk & Hf). destruct (heap w !! k) as [[h|]|] eqn:E; try done.
    injection Hf as <- <-. by exists k, h.
  - intros (k & h & Hk & Hh & <- & <-). exists k. by rewrite Hh.
Qed.

(** C6. The snapshot taken at construction holds exactly the
    [(level, output_queue)] pairs of the [LogregatorHandler]s on the parent's
    root logger. In the worker, [run] builds one handler per entry and has
    each of them registered on the root logger, with the entry's level and
    channel, when the target starts; whatever the target's outcome, [run]
    ends with that outcome and with none of these handlers registered. With
    an empty snapshot [run] is the target alone. The target is any code that
    keeps the root's handler list free of duplicates and leaves existing
    handler objects as they are. *)
Theorem LogregatorProcess_scoped (parent worker : World)
    (target : M World unit) :
  NoDup (root_handlers (root worker)) →
  (∀ w, NoDup (root_handlers (root w)) →
        NoDup (root_handlers (root (target w).1))) →
  (∀ w k o, heap w !! k = Some o → heap (target w).1 !! k = Some o) →
  (∀ lvl q, (lvl, q) ∈ LogregatorProcess_init parent ↔
            ∃ k h, k ∈ root_handlers (root parent) ∧
                   heap parent !! k = Some (Logregator_handler h) ∧
                   level h = lvl ∧ output_queue h = q) ∧
  (∃ handlers at_entry,
     run_enter (LogregatorProcess_init parent) worker = (at_entry, Return handlers) ∧
     Forall2 (λ k e, k ∈ root_handlers (root at_entry) ∧
                     ∃ old, heap at_entry !! k
                            = Some (Logregator_handler (mkHandler e.1 e.2 (Some old))))
       handlers (LogregatorProcess_init parent) ∧
     root_handlers (root at_entry) = root_handlers (root worker) ++ handlers ∧
     (run target (LogregatorProcess_init parent) worker).2 = (target at_entry).2 ∧
     (∀ k, k ∈ handlers →
           k ∉ root_handlers (root (run target (LogregatorProcess_init parent) worker).1)) ∧
     root_handlers (root (run target (LogregatorProcess_init parent) worker).1)
       ⊆ root_handlers (root (target at_entry).1)) ∧
  (LogregatorProcess_init parent = [] →
     run_enter (LogregatorProcess_init parent) worker = (worker, Return []) ∧
     run target (LogregatorProcess_init parent) worker = target worker).
Proof.
  intros Hnd Htnd Hframe.
  split; [intros lvl q; apply LogregatorProcess_init_elem|].
  generalize (LogregatorProcess_init parent) as self. intros self. split.
  - destruct (construct_handlers_spec self worker)
      as (wc & hs & Hc & Hr & _ & _ & _ & Hnd_hs & Hfresh & _ & Hobj).
    destruct (install_all_spec hs wc)
      as (w1 & Hinst & Hrh & _ & _ & _ & _ & Hset); [done | |].
    { intros k Hk. rewrite Hr. by apply Hfresh. }
    assert (Henter : run_enter self worker = (w1, Return hs)).
    { unfold run_enter, mbind, M_bind. rewrite Hc.
      change (for_each _ hs wc) with (for_each (λ h, modify (install h)) hs wc).
      by rewrite Hinst. }
    assert (Hreg : Forall2 (λ k e, k ∈ root_handlers (root w1) ∧
                     ∃ old, heap w1 !! k
                            = Some (Logregator_handler (mkHandler e.1 e.2 (Some old))))
                     hs self).
    { apply Forall2_same_length_lookup. split; [by eapply Forall2_length|].
      intros i k e Hk He.
      pose proof (Forall2_lookup_lr _ _ _ _ _ _ Hobj Hk He) as Hke.
      assert (Hin : k ∈ hs) by (by eapply list_elem_of_lookup_2).
      split; [rewrite Hrh; apply elem_of_app; by right|].
      by apply (Hset k _ Hin Hke). }
    destruct (target w1) as [w2 o] eqn:Ht.
    destruct (uninstall_all_spec hs w2)
      as (w3 & Hun & _ & _ & _ & _ & _ & Hsub & Hgone).
    { specialize (Htnd w1). rewrite Ht in Htnd. apply Htnd.
      rewrite Hrh, Hr. apply NoDup_app. split_and!; [done | | done].
      intros k Hk1 Hk2. by apply Hfresh in Hk2 as [_ ?]. }
    { intros k Hk _. apply list_elem_of_lookup in Hk as [i Hk].
      destruct (Forall2_lookup_l _ _ _ _ _ Hreg Hk) as (e & _ & _ & old & Hheap).
      specialize (Hframe w1 _ _ Hheap). rewrite Ht in Hframe.
      unfold old_root_level_of. simpl in Hframe. by rewrite Hframe. }
    assert (Hrun : run target self worker = (w3, o)).
    { unfold run, mbind, M_bind. rewrite Henter. unfold try_finally.
      by rewrite Ht, Hun. }
    exists hs, w1. rewrite Hrun, Ht; simpl.
    split_and!; try done. by rewrite Hrh, Hr.
  - intros ->. split; [done|].
    unfold run, mbind, M_bind, run_enter, try_finally; simpl.
    by destruct (target worker) as [w2 o].
Qed.

Lemma LogregatorProcess_scoped_witness :
  LogregatorProcess_init (install 1 Sample.w1) = [(INFO, 0)] ∧
  ∃ handlers at_entry,
    run_enter (LogregatorProcess_init (install 1 Sample.w1)) Sample.w0
    = (at_entry, Return handlers) ∧
    (run Sample.failing_target (LogregatorProcess_init (install 1 Sample.w1))
       Sample.w0).2 = (Sample.failing_target at_entry).2 ∧
    (∀ k, k ∈ handlers →
          k ∉ root_handlers
                (root (run Sample.failing_target
                         (LogregatorProcess_init (install 1 Sample.w1))
                         Sample.w0).1)).
Proof.
  split; [reflexivity|].
  destruct (LogregatorProcess_scoped (install 1 Sample.w1) Sample.w0
              Sample.failing_target)
    as (_ & (hs & w1 & Henter & _ & _ & Hout & Hgone & _) & _).
  - vm_compute. apply NoDup_singleton.
  - intros w Hw. exact Hw.
  - intros w k o Hk. exact Hk.
  - exists hs, w1. split_and!; assumption.
Defined.

(** ** The session life cycle *)

Lemma started_false (s : Logregator) :
  started s = false ↔ _consumer_thread s = None.
Proof.
  unfold started. destruct (_consumer_thread s); split; try done.
Qed.

Lemma substitute_process_spec (d : list (Ctx * option ProcessClass))
    (P : Ctx → option ProcessClass) :
  map fst (substitute_process d P).1 = map fst d ∧
  (∀ c, c ∈ map fst d →
        (substitute_process d P).2 c = Some LogregatorProcess_cls) ∧
  (∀ c, c ∉ map fst d → (substitute_process d P).2 c = P c).
Proof.
  revert P. induction d as [|[ctx v] d IH]; intros P; simpl.
  - split_and!; try done. intros c Hc. by apply elem_of_nil in Hc.
  - destruct (IH (assign_Process ctx (Some LogregatorProcess_cls) P))
      as (Hkeys & Hin & Hout).
    destruct (substitute_process d _) as [d' P'] eqn:E; simpl in *.
    split_and!.
    + by rewrite Hkeys.
    + intros c Hc. destruct (decide (c ∈ map fst d)) as [Hd|Hd]; [by apply Hin|].
      apply elem_of_cons in Hc as [->|Hc]; [|done].
      rewrite Hout by done. unfold assign_Process.
      by rewrite bool_decide_eq_true_2.
    + intros c [Hne Hc]%not_elem_of_cons. rewrite Hout by done.
      unfold assign_Process. by rewrite bool_decide_eq_false_2.
Qed.

Lemma start_started (ok : bool) (s : Logregator) (w : World) :
  started s = true → start ok s w = (s, w).
Proof. intros Hs. unfold start. by rewrite Hs. Qed.

Lemma start_not_started (ok : bool) (s : Logregator) (w : World) :
  started s = false →
  let q := fresh (dom (queues w)) in
  let h := fresh_ref w in
  let wh := set_heap (<[h := Logregator_handler
                              (LogregatorHandler_init
                                 (getEffectiveLevel w (logger s)) q)]> (heap w))
              (set_queues (<[q := new_queue]> (queues w)) w) in
  start ok s w
  = (mkLogregator (logger s) (my_pid s)
       (substitute_process (_old_process s) (Process w)).1 (Some q) (Some h)
       (if ok then Some (mkThread true) else None),
     set_Process (substitute_process (_old_process s) (Process w)).2
       (install h wh)).
Proof.
  intros Hs q h wh. unfold start. rewrite Hs. fold q.
  change (fresh_ref (set_queues _ w)) with h.
  change (set_heap _ (set_queues _ w)) with wh.
  change (_old_process (set_handler _ _)) with (_old_process s).
  destruct (install_frame h wh) as (_ & -> & _ & _).
  change (Process wh) with (Process w).
  by destruct (substitute_process _ _).
Qed.

Lemma start_working (s : Logregator) (w : World) :
  started s = false →
  session_working (start true s w).1 (start true s w).2.
Proof.
  intros Hs. rewrite start_not_started by done.
  destruct (fresh_ref_spec w) as [Hnone Hnin].
  set (q := fresh (dom (queues w))). set (h := fresh_ref w) in *.
  set (wh := set_heap (<[h := Logregator_handler
                              (LogregatorHandler_init
                                 (getEffectiveLevel w (logger s)) q)]> (heap w))
               (set_queues (<[q := new_queue]> (queues w)) w)).
  cbn [fst snd].
  assert (Hwh : h ∉ root_handlers (root wh)) by exact Hnin.
  destruct (install_frame h wh) as (Hq & _ & _ & _).
  destruct (substitute_process_spec (_old_process s) (Process w))
    as (Hkeys & Hin & _).
  unfold session_working. split; [by apply bool_decide_eq_true_2|].
  split; [done|].
  exists q, h, (root_level (root w)). simpl. split_and!; try done.
  - rewrite Hq. unfold wh; simpl. by rewrite lookup_insert_eq.
  - rewrite (install_heap_self h wh
               (LogregatorHandler_init (getEffectiveLevel w (logger s)) q));
      [done | done |].
    unfold wh; simpl. by rewrite lookup_insert_eq.
  - apply install_elem.
  - by rewrite install_root.
  - intros ctx Hctx. apply Hin. by rewrite <- Hkeys.
Qed.

(** The handler [start] leaves in the session: its threshold is the sink's
    effective level of before the call, and it has recorded the root level of
    before the call. *)
Lemma start_handler_recorded (s : Logregator) (w : World) :
  started s = false →
  ∃ h q, _handler (start true s w).1 = Some h ∧
         heap (start true s w).2 !! h
         = Some (Logregator_handler
                   (mkHandler (getEffectiveLevel w (logger s)) q
                      (Some (root_level (root w))))) ∧
         logger (start true s w).1 = logger s ∧
         my_pid (start true s w).1 = my_pid s.
Proof.
  intros Hs. rewrite start_not_started by done.
  destruct (fresh_ref_spec w) as [Hnone Hnin].
  set (q := fresh (dom (queues w))). set (h := fresh_ref w) in *.
  set (wh := set_heap (<[h := Logregator_handler
                              (LogregatorHandler_init
                                 (getEffectiveLevel w (logger s)) q)]> (heap w))
               (set_queues (<[q := new_queue]> (queues w)) w)).
  cbn [fst snd]. exists h, q. split_and!; try done.
  simpl.
  rewrite (install_heap_self h wh
             (LogregatorHandler_init (getEffectiveLevel w (logger s)) q));
    [done | exact Hnin |].
  unfold wh; simpl. by rewrite lookup_insert_eq.
Qed.

Lemma stop_not_started (s : Logregator) (w : World) :
  started s = false → stop s w = (s, w, Return ()).
Proof. intros Hs. unfold stop. by rewrite Hs. Qed.

Lemma stop_leaves_not_started (s : Logregator) (w : World) :
  started (stop s w).1.1 = false.
Proof.
  unfold stop. destruct (started s) eqn:Hs; [|done].
  destruct (_handler s) as [h|] eqn:Hh; simpl; rewrite ?Hh; [|done].
  by destruct (uninstall h _) as [w' [[]|e]].
Qed.

Lemma session_invariant_init (lg : Logger) (pid : Z) (start_method : string) :
  session_invariant (Logregator_init lg pid start_method).
Proof.
  unfold session_invariant, all_present; simpl. split; [done|].
  by intros (_ & _ & [t Ht]).
Qed.

Lemma session_invariant_start (ok : bool) (s : Logregator) (w : World) :
  session_invariant s → session_invariant (start ok s w).1.
Proof.
  intros Hinv. destruct (started s) eqn:Hs.
  - by rewrite start_started.
  - rewrite start_not_started by done. unfold session_invariant, all_present.
    simpl. destruct ok; simpl.
    + split; [eauto|done].
    + split; [done|]. by intros (_ & _ & [t Ht]).
Qed.

Lemma session_invariant_stop (s : Logregator) (w : World) :
  session_invariant (stop s w).1.1.
Proof.
  pose proof (stop_leaves_not_started s w) as Hs.
  unfold session_invariant, all_present. rewrite Hs.
  apply started_false in Hs. rewrite Hs. split; [done|].
  by intros (_ & _ & [t Ht]).
Qed.

(** The data-model invariant holds on the code: after any sequence of
    [start()] and [stop()] calls on a new session, whatever the calls'
    outcomes, the session is started exactly when handler, channel and
    consumer thread are all present. *)
Lemma session_invariant_calls (cs : list Call) (lg : Logger) (pid : Z)
    (start_method : string) (w : World) :
  session_invariant (do_calls cs (Logregator_init lg pid start_method, w)).1.
Proof.
  unfold do_calls.
  generalize (session_invariant_init lg pid start_method).
  generalize (Logregator_init lg pid start_method). revert w.
  induction cs as [|c cs IH]; intros w s Hinv; simpl; [done|].
  destruct c as [ok|]; simpl.
  - destruct (start ok s w) as [s' w'] eqn:E. apply IH.
    change s' with (s', w').1. rewrite <- E. by apply session_invariant_start.
  - destruct (stop s w) as [[s' w'] o] eqn:E. apply IH.
    change s' with (s', w', o).1.1. rewrite <- E. apply session_invariant_stop.
Qed.

Lemma consume_one_passes (w : World) (s : Logregator) (pid : Z)
    (r : LogRecord) :
  isEnabledFor w (logger s) (levelno r) = true →
  ¬ (pid = my_pid s ∧ rec_name r = logger_name (logger s)) →
  consume_one w s (pid, r)
  = (mark_as_handled
       (set_msg (rewritten_message
                   (attribution (logger_name (logger s)) (my_pid s) pid) (msg r)) r),
     true).
Proof.
  intros Hen Hecho. unfold consume_one, attribution, rewritten_message.
  rewrite Hen; simpl. case_bool_decide as Hpid.
  - by rewrite bool_decide_eq_false_2 by congruence.
  - rewrite (bool_decide_eq_true_2 (pid = my_pid s)) by done.
    rewrite bool_decide_eq_false_2; [done|]. intros Hname. by apply Hecho.
Qed.

Lemma emit_open_channel (format_exception : ExcInfo → list string)
    (hobj : LogregatorHandler) (pid : Z) (r : LogRecord) :
  is_handled r = false → (level hobj ≤ levelno r)%Z →
  exc_info r ≠ Some exc_False →
  ∃ r', emit format_exception hobj pid r new_queue
        = (r', mkQueue [(pid, r')] false, Return ()) ∧
        exception_rendered format_exception r r'.
Proof.
  intros Hm Hle Hne.
  destruct (emit_accepts format_exception hobj pid r new_queue Hm Hle Hne)
    as (r' & Hr' & ->).
  by exists r'.
Qed.

(** A working session delivers: a record its handler accepts from some
    process, if the sink is enabled for it when the consumer runs and it is
    not the sink's own echo, is in the sink's hands, rewritten and marked,
    once [stop] returns. The handler's threshold is the sink's effective
    level of before the installation; the consumer checks the record in the
    process state of the session. *)
Lemma working_session_delivers (format_exception : ExcInfo → list string)
    (s : Logregator) (w : World) (pid : Z) (r : LogRecord) :
  session_working s w →
  is_handled r = false →
  exc_info r ≠ Some exc_False →
  (∀ h hobj, _handler s = Some h →
             heap w !! h = Some (Logregator_handler hobj) →
             (level hobj ≤ levelno r)%Z) →
  isEnabledFor w (logger s) (levelno r) = true →
  ¬ (pid = my_pid s ∧ rec_name r = logger_name (logger s)) →
  ∃ q h hobj r',
    _input_queue s = Some q ∧ _handler s = Some h ∧
    heap w !! h = Some (Logregator_handler hobj) ∧
    emit format_exception hobj pid r new_queue
    = (r', mkQueue [(pid, r')] false, Return ()) ∧
    exception_rendered format_exception r r' ∧
    let w1 := set_queues (<[q := mkQueue [(pid, r')] false]> (queues w)) w in
    (stop s w1).2 = Return () ∧
    handled (stop s w1).1.2
    = handled w ++
      [(logger_name (logger s),
        mark_as_handled
          (set_msg (rewritten_message
                      (attribution (logger_name (logger s)) (my_pid s) pid)
                      (msg r')) r'))].
Proof.
  intros (Hst & _ & q & h & old & Hq & Hh & _ & Hheap & Hin & _ & _)
         Hm Hne Hle Hen Hecho.
  specialize (Hle h _ Hh Hheap). simpl in Hle.
  destruct (emit_open_channel format_exception
              (mkHandler (getEffectiveLevel (root_setLevel old w) (logger s))
                 q (Some old)) pid r Hm Hle Hne)
    as (r' & Hemit & Hr').
  eexists q, h, _, r'. split_and!; try done.
  intros w1.
  assert (Hone : consume_one w s (pid, r')
                 = (mark_as_handled
                      (set_msg (rewritten_message
                                  (attribution (logger_name (logger s)) (my_pid s) pid)
                                  (msg r')) r'), true)).
  { destruct Hr' as (Hn & Hl & _). apply consume_one_passes; [by rewrite Hl|].
    by rewrite Hn. }
  unfold stop. rewrite Hst.
  unfold close_input, join_consumer. rewrite Hq. simpl.
  rewrite lookup_alter_eq, lookup_insert_eq. simpl.
  change (consume_one _ s (pid, r')) with (consume_one w s (pid, r')).
  rewrite Hone, Hh.
  set (w2 := set_handled _ _).
  rewrite (uninstall_registered h w2 old); [| exact Hin |].
  - simpl. split; [done|]. unfold root_removeHandler. by case_bool_decide.
  - unfold old_root_level_of. simpl. by rewrite Hheap.
Qed.

(** C8. [stop()] on a session that is not started returns at once and
    changes neither the session nor the process state; whatever a [stop()]
    did, a second one right after it changes nothing; and a [start()] after a
    [stop()] gives a working session again: thread, open channel, handler
    registered at the sink's level, spawn primitive substituted, and records
    emitted from then on reach the sink. The record is one the handler
    accepts, at the sink's effective level as [start()] read it, and for
    which the sink is enabled in the restarted session. *)
Theorem stop_idempotent_restartable
    (format_exception : ExcInfo → list string) (s : Logregator) (w : World) :
  (started s = false → stop s w = (s, w, Return ())) ∧
  stop (stop s w).1.1 (stop s w).1.2
  = ((stop s w).1.1, (stop s w).1.2, Return ()) ∧
  session_working (start true (stop s w).1.1 (stop s w).1.2).1
                  (start true (stop s w).1.1 (stop s w).1.2).2 ∧
  (∀ pid r,
     let s' := (start true (stop s w).1.1 (stop s w).1.2).1 in
     let w' := (start true (stop s w).1.1 (stop s w).1.2).2 in
     is_handled r = false →
     exc_info r ≠ Some exc_False →
     (getEffectiveLevel (stop s w).1.2 (logger s) ≤ levelno r)%Z →
     isEnabledFor w' (logger s) (levelno r) = true →
     ¬ (pid = my_pid s ∧ rec_name r = logger_name (logger s)) →
     ∃ q h hobj r',
       _input_queue s' = Some q ∧ _handler s' = Some h ∧
       heap w' !! h = Some (Logregator_handler hobj) ∧
       emit format_exception hobj pid r new_queue
       = (r', mkQueue [(pid, r')] false, Return ()) ∧
       let w1 := set_queues (<[q := mkQueue [(pid, r')] false]> (queues w')) w' in
       (stop s' w1).2 = Return () ∧
       map (λ x, msg x.2) (handled (stop s' w1).1.2)
       = map (λ x, msg x.2) (handled w') ++
         [rewritten_message
            (attribution (logger_name (logger s)) (my_pid s) pid) (msg r)]).
Proof.
  pose proof (stop_leaves_not_started s w) as Hoff.
  split; [apply stop_not_started|].
  split; [by apply stop_not_started|].
  split; [by apply start_working|].
  intros pid r s' w' Hm Hne Hle Hen Hecho.
  assert (Hlogger : logger (stop s w).1.1 = logger s ∧
                    my_pid (stop s w).1.1 = my_pid s).
  { unfold stop. destruct (started s); [|done]. simpl.
    destruct (_handler s) as [h|]; [|done].
    by destruct (uninstall h _) as [w2 [[]|e]]. }
  destruct Hlogger as [Hlg0 Hpid0].
  destruct (start_handler_recorded (stop s w).1.1 (stop s w).1.2 Hoff)
    as (h0 & q0 & Hh0 & Hheap0 & Hlg & Hpid).
  fold s' in Hh0, Hlg, Hpid. fold w' in Hheap0.
  rewrite Hlg0 in Hlg. rewrite Hpid0 in Hpid.
  destruct (working_session_delivers format_exception s' w' pid r)
    as (q & h & hobj & r' & Hq & Hh & Hheap & Hemit & Hr' & Hstop & Hout);
    rewrite ?Hlg, ?Hpid; try done.
  { by apply start_working. }
  { intros h hobj. rewrite Hh0, Hlg0 in *. intros [= <-].
    rewrite Hheap0. by intros [= <-]. }
  exists q, h, hobj, r'. split_and!; try done.
  intros w1. split; [done|]. fold w1 in Hout. rewrite Hout.
  rewrite map_app. simpl. rewrite Hlg, Hpid.
  by destruct Hr' as (_ & _ & -> & _).
Qed.

Lemma stop_idempotent_restartable_witness :
  stop Sample.session Sample.w0 = (Sample.session, Sample.w0, Return ()) ∧
  session_working
    (start true (stop Sample.session Sample.w0).1.1
       (stop Sample.session Sample.w0).1.2).1
    (start true (stop Sample.session Sample.w0).1.1
       (stop Sample.session Sample.w0).1.2).2 ∧
  ∃ q h hobj r',
    heap (start true Sample.session Sample.w0).2 !! h
    = Some (Logregator_handler hobj) ∧
    emit Sample.format_exception hobj 4242 Sample.failed new_queue
    = (r', mkQueue [(4242%Z, r')] false, Return ()) ∧
    map (λ x, msg x.2)
      (handled
         (stop (start true Sample.session Sample.w0).1
            (set_queues (<[q := mkQueue [(4242%Z, r')] false]>
                           (queues (start true Sample.session Sample.w0).2))
               (start true Sample.session Sample.w0).2)).1.2)
    = [MsgStr "[S PID 4242] - failed"].
Proof.
  destruct (stop_idempotent_restartable Sample.format_exception
              Sample.session Sample.w0) as (Hnoop & _ & Hwork & Hdeliver).
  split; [apply Hnoop; reflexivity|]. split; [exact Hwork|].
  destruct (Hdeliver 4242%Z Sample.failed)
    as (q & h & hobj & r' & _ & _ & Hheap & Hemit & _ & Hout).
  - reflexivity.
  - discriminate.
  - vm_compute. discriminate.
  - reflexivity.
  - intros [Hpid _]. discriminate Hpid.
  - exists q, h, hobj, r'. split; [exact Hheap|]. split; [exact Hemit|].
    exact Hout.
Defined.

(** What a [start()] whose consumer thread cannot be created leaves behind,
    on any session that was not started: the session reads as not started,
    and yet it keeps its handler and its channel, the handler stays
    registered on the root logger, whose level stays lowered, and the spawn
    primitive stays substituted. *)
Lemma start_thread_failure_leaves (s : Logregator) (w : World) :
  started s = false →
  started (start false s w).1 = false ∧
  ∃ q h,
    _input_queue (start false s w).1 = Some q ∧
    _handler (start false s w).1 = Some h ∧
    queues (start false s w).2 !! q = Some new_queue ∧
    h ∈ root_handlers (root (start false s w).2) ∧
    (h ∉ root_handlers (root w)) ∧
    root_level (root (start false s w).2) = (NOTSET + 1)%Z ∧
    (∀ ctx, ctx ∈ map fst (_old_process s) →
            Process (start false s w).2 ctx = Some LogregatorProcess_cls) ∧
    stop (start false s w).1 (start false s w).2
    = ((start false s w).1, (start false s w).2, Return ()).
Proof.
  intros Hs. rewrite start_not_started by done.
  destruct (fresh_ref_spec w) as [Hnone Hnin].
  set (q := fresh (dom (queues w))). set (h := fresh_ref w) in *.
  set (wh := set_heap (<[h := Logregator_handler
                              (LogregatorHandler_init
                                 (getEffectiveLevel w (logger s)) q)]> (heap w))
               (set_queues (<[q := new_queue]> (queues w)) w)).
  cbn [fst snd].
  assert (Hwh : h ∉ root_handlers (root wh)) by exact Hnin.
  destruct (install_frame h wh) as (Hq & _ & _ & _).
  destruct (substitute_process_spec (_old_process s) (Process w))
    as (_ & Hin & _).
  split; [done|]. exists q, h. simpl. split_and!; try done.
  - rewrite Hq. unfold wh; simpl. by rewrite lookup_insert_eq.
  - apply install_elem.
  - by rewrite install_root.
Qed.

(** C1. The code at the failing input: a new session on a process whose root
    logger is at WARNING with one handler, and a [start()] whose thread
    creation fails. The invariant holds and the session is not started, but
    the initialization is partial: handler 1 is kept and registered, the root
    level is lowered to 1, channel 0 is kept, and every context creates
    [LogregatorProcess]es. [stop()] does nothing about it, and after a later
    successful [start()] and [stop()] the leaked handler, the lowered level
    and the substituted spawn primitive are still there. *)
Theorem start_thread_failure_partial_init :
  session_invariant (start false Sample.session Sample.w0).1 ∧
  started (start false Sample.session Sample.w0).1 = false ∧
  _handler (start false Sample.session Sample.w0).1 = Some 1 ∧
  _input_queue (start false Sample.session Sample.w0).1 = Some 0 ∧
  root Sample.w0 = mkRoot WARNING [0] ∧
  root (start false Sample.session Sample.w0).2 = mkRoot (NOTSET + 1) [0; 1] ∧
  queues (start false Sample.session Sample.w0).2 !! 0 = Some new_queue ∧
  (∀ ctx, Process Sample.w0 ctx = Some (BaseProcess ctx) ∧
          Process (start false Sample.session Sample.w0).2 ctx
          = Some LogregatorProcess_cls) ∧
  stop (start false Sample.session Sample.w0).1
       (start false Sample.session Sample.w0).2
  = ((start false Sample.session Sample.w0).1,
     (start false Sample.session Sample.w0).2, Return ()) ∧
  root (do_calls [call_start false; call_start true; call_stop]
          (Sample.session, Sample.w0)).2 = mkRoot (NOTSET + 1) [0; 1] ∧
  (∀ ctx, Process (do_calls [call_start false; call_start true; call_stop]
                     (Sample.session, Sample.w0)).2 ctx
          = Some LogregatorProcess_cls) ∧
  root (do_calls [call_start true; call_stop] (Sample.session, Sample.w0)).2
  = root Sample.w0.
Proof.
  split_and!; try (vm_compute; reflexivity).
  - apply session_invariant_start, session_invariant_init.
  - intros []; split; vm_compute; reflexivity.
  - intros []; vm_compute; reflexivity.
Qed.

(** * Further properties of the code *)

(** ** Registering and unregistering handlers *)

Lemma list_remove_first_mid (x : nat) (l1 l2 : list nat) :
  x ∉ l1 → list_remove_first x (l1 ++ x :: l2) = l1 ++ l2.
Proof.
  induction l1 as [|y l1 IH]; simpl; intros Hx.
  - by rewrite bool_decide_eq_true_2.
  - apply not_elem_of_cons in Hx as [Hne Hx].
    rewrite bool_decide_eq_false_2 by done. by rewrite IH.
Qed.

Lemma install_NoDup (k : nat) (w : World) :
  NoDup (root_handlers (root w)) →
  NoDup (root_handlers (root (install k w))).
Proof.
  intros Hnd. destruct (decide (k ∈ root_handlers (root w))) as [Hin|Hnin].
  - by rewrite install_registered.
  - rewrite install_root by done. simpl.
    apply NoDup_app. split_and!; [done | | apply NoDup_singleton].
    intros x Hx ->%list_elem_of_singleton. done.
Qed.

Lemma uninstall_root (k : nat) (w w' : World) :
  uninstall k w = (w', Return ()) →
  heap w' = heap w ∧ queues w' = queues w ∧ Process w' = Process w ∧
  handled w' = handled w ∧
  root_handlers (root w') = list_remove_first k (root_handlers (root w)).
Proof.
  unfold uninstall. case_bool_decide as Hin.
  - destruct (old_root_level_of k w) as [lvl|]; [|done].
    intros [= <-]. unfold root_removeHandler.
    by rewrite bool_decide_eq_true_2.
  - intros [= <-]. split_and!; try done.
    clear -Hin. induction (root_handlers (root w)) as [|y l IH]; [done|].
    apply not_elem_of_cons in Hin as [Hne Hin]. simpl.
    rewrite bool_decide_eq_false_2 by done. by rewrite <- IH.
Qed.

(** Installing twice is installing once, and the root logger's handler list
    stays free of duplicates through [install] and [uninstall]. *)
Theorem install_registers_once (w : World) (k : nat) :
  NoDup (root_handlers (root w)) →
  install k (install k w) = install k w ∧
  k ∈ root_handlers (root (install k w)) ∧
  NoDup (root_handlers (root (install k w))) ∧
  NoDup (root_handlers (root (uninstall k w).1)).
Proof.
  intros Hnd. split_and!.
  - apply install_registered, install_elem.
  - apply install_elem.
  - by apply install_NoDup.
  - unfold uninstall. case_bool_decide as Hin; [|done].
    destruct (old_root_level_of k w); [|done]. simpl.
    unfold root_removeHandler. rewrite bool_decide_eq_true_2 by done. simpl.
    by apply list_remove_first_NoDup.
Qed.

Lemma install_registers_once_witness :
  install 1 (install 1 Sample.w1) = install 1 Sample.w1 ∧
  NoDup (root_handlers (root (install 1 Sample.w1))).
Proof.
  destruct (install_registers_once Sample.w1 1) as (Hidem & _ & Hnd & _).
  - vm_compute. apply NoDup_singleton.
  - by split.
Defined.

(** On a duplicate-free handler list, an [uninstall] that returned has left
    the handler unregistered, and the next [uninstall] changes nothing. *)
Theorem uninstall_twice (w w' : World) (k : nat) :
  NoDup (root_handlers (root w)) →
  uninstall k w = (w', Return ()) →
  (k ∉ root_handlers (root w')) ∧ uninstall k w' = (w', Return ()).
Proof.
  intros Hnd Hun. apply uninstall_root in Hun as (_ & _ & _ & _ & Hrh).
  assert (Hout : k ∉ root_handlers (root w')).
  { rewrite Hrh. by apply list_remove_first_NoDup. }
  split; [done | by apply uninstall_unregistered].
Qed.

Lemma uninstall_twice_witness :
  (1 ∉ root_handlers (root (uninstall 1 (install 1 Sample.w1)).1)) ∧
  uninstall 1 (uninstall 1 (install 1 Sample.w1)).1
  = ((uninstall 1 (install 1 Sample.w1)).1, Return ()).
Proof.
  apply (uninstall_twice (install 1 Sample.w1)).
  - vm_compute. apply NoDup_cons. split; [|apply NoDup_singleton].
    intros Hin. apply list_elem_of_In in Hin. simpl in Hin. lia.
  - reflexivity.
Defined.

Lemma uninstall_restores (k : nat) (w w1 : World) :
  k ∉ root_handlers (root w) →
  root w1 = root (install k w) →
  old_root_level_of k w1 = Some (root_level (root w)) →
  ∃ w2, uninstall k w1 = (w2, Return ()) ∧ root w2 = root w ∧
        heap w2 = heap w1 ∧ queues w2 = queues w1 ∧
        Process w2 = Process w1 ∧ handled w2 = handled w1.
Proof.
  intros Hnin Hroot Hold.
  assert (Hin : k ∈ root_handlers (root w1)).
  { rewrite Hroot. apply install_elem. }
  eexists. split; [by apply uninstall_registered|].
  unfold root_removeHandler. rewrite bool_decide_eq_true_2 by done. simpl.
  split_and!; try done.
  rewrite Hroot, install_root by done. simpl.
  rewrite list_remove_first_app_new by done. apply root_eta.
Qed.

(** Two handlers installed one after the other and uninstalled in the reverse
    order give back the root logger as it was, level and handler list; after
    the inner [uninstall] the root logger is as the outer [install] left it. *)
Theorem install_uninstall_nested (w : World) (outer inner : nat)
    (ho hi : LogregatorHandler) :
  heap w !! outer = Some (Logregator_handler ho) →
  heap w !! inner = Some (Logregator_handler hi) →
  outer ≠ inner →
  outer ∉ root_handlers (root w) →
  inner ∉ root_handlers (root w) →
  ∃ w2 w3,
    uninstall inner (install inner (install outer w)) = (w2, Return ()) ∧
    root w2 = root (install outer w) ∧
    uninstall outer w2 = (w3, Return ()) ∧
    root w3 = root w.
Proof.
  intros Ho Hi Hne Hno Hni.
  destruct (install_frame outer w) as (_ & _ & _ & Hother).
  assert (Hni' : inner ∉ root_handlers (root (install outer w))).
  { rewrite install_root by done. simpl. apply not_elem_of_app. split; [done|].
    intros ->%list_elem_of_singleton. done. }
  destruct (uninstall_restores inner (install outer w)
              (install inner (install outer w)))
    as (w2 & Hun2 & Hr2 & Hh2 & _); [done | done | |].
  { eapply install_old_root_level; [|done]. rewrite Hother; [done|]. congruence. }
  destruct (uninstall_restores outer w w2) as (w3 & Hun3 & Hr3 & _);
    [done | done | |].
  { unfold old_root_level_of. rewrite Hh2.
    destruct (install_frame inner (install outer w)) as (_ & _ & _ & Hother').
    rewrite Hother' by done.
    by rewrite (install_heap_self outer w ho). }
  by exists w2, w3.
Qed.

Lemma install_uninstall_nested_witness :
  ∃ w2 w3,
    uninstall 2 (install 2 (install 1 Scenario.w2)) = (w2, Return ()) ∧
    root w2 = root (install 1 Scenario.w2) ∧
    uninstall 1 w2 = (w3, Return ()) ∧
    root w3 = root Scenario.w2.
Proof.
  apply (install_uninstall_nested Scenario.w2 1 2
           (LogregatorHandler_init INFO 0) (LogregatorHandler_init DEBUG 1));
    try reflexivity; try lia;
    vm_compute; intros Hin; apply list_elem_of_In in Hin; simpl in Hin; lia.
Defined.

(** ** Saving and restoring the spawn primitive *)

Lemma substitute_process_saved (d : list (Ctx * option ProcessClass))
    (P : Ctx → option ProcessClass) :
  NoDup (map fst d) →
  ∀ c v, (c, v) ∈ (substitute_process d P).1 → v = P c.
Proof.
  revert P. induction d as [|[ctx v0] d IH]; intros P Hnd c v; simpl.
  - intros Hin. by apply elem_of_nil in Hin.
  - simpl in Hnd. apply NoDup_cons in Hnd as [Hctx Hnd].
    pose proof (IH (assign_Process ctx (Some LogregatorProcess_cls) P) Hnd) as IH'.
    destruct (substitute_process_spec d
                (assign_Process ctx (Some LogregatorProcess_cls) P))
      as (Hkeys & _ & _).
    destruct (substitute_process d _) as [d' P'] eqn:E; simpl in *.
    intros [[= -> ->]|Hin]%elem_of_cons; [done|].
    rewrite (IH' c v Hin). unfold assign_Process.
    rewrite bool_decide_eq_false_2; [done|]. intros ->.
    apply Hctx. rewrite <- Hkeys. apply list_elem_of_fmap. by exists (ctx, v).
Qed.

Lemma restore_process_spec (d : list (Ctx * option ProcessClass))
    (P : Ctx → option ProcessClass) (c : Ctx) :
  NoDup (map fst d) →
  (c ∉ map fst d → restore_process d P c = P c) ∧
  (∀ v, (c, v) ∈ d → restore_process d P c = v).
Proof.
  revert P. induction d as [|[ctx v0] d IH]; intros P Hnd; simpl.
  - split; [done|]. intros v Hin. by apply elem_of_nil in Hin.
  - simpl in Hnd. apply NoDup_cons in Hnd as [Hctx Hnd].
    destruct (IH (assign_Process ctx v0 P) Hnd) as [IHout IHin]. split.
    + intros [Hne Hc]%not_elem_of_cons. rewrite IHout by done.
      unfold assign_Process. by rewrite bool_decide_eq_false_2.
    + intros v [[= -> ->]|Hin]%elem_of_cons; [|by apply IHin].
      rewrite IHout by done. unfold assign_Process.
      by rewrite bool_decide_eq_true_2.
Qed.

(** Restoring what a substitution saved gives back every [ctx.Process],
    whatever was assigned to the substituted contexts in between. *)
Lemma restore_substitute (d : list (Ctx * option ProcessClass))
    (P P' : Ctx → option ProcessClass) (c : Ctx) :
  NoDup (map fst d) →
  (∀ c', c' ∉ map fst d → P' c' = P c') →
  restore_process (substitute_process d P).1 P' c = P c.
Proof.
  intros Hnd Hout.
  destruct (substitute_process_spec d P) as (Hkeys & _ & _).
  pose proof (substitute_process_saved d P Hnd) as Hsaved.
  assert (Hnd' : NoDup (map fst (substitute_process d P).1)) by by rewrite Hkeys.
  destruct (restore_process_spec (substitute_process d P).1 P' c Hnd')
    as [Hrout Hrin].
  destruct (decide (c ∈ map fst (substitute_process d P).1)) as [Hin|Hnin].
  - apply list_elem_of_fmap in Hin as ([c' v] & -> & Hin). simpl in *.
    rewrite (Hrin v Hin). by apply Hsaved.
  - rewrite Hrout by done. apply Hout. by rewrite <- Hkeys.
Qed.

Lemma Logregator_init_keys (lg : Logger) (pid : Z) (start_method : string) :
  NoDup (map fst (_old_process (Logregator_init lg pid start_method))).
Proof.
  simpl. case_bool_decide; simpl.
  - by apply (bool_decide_unpack _).
  - apply NoDup_singleton.
Qed.

(** ** Stopping a started session *)

(** The consumer reads the root logger's level, the sink and the session's
    pid, and nothing else. *)
Lemma consume_one_ext (w1 w2 : World) (s1 s2 : Logregator)
    (x : Z * LogRecord) :
  root_level (root w1) = root_level (root w2) →
  logger s1 = logger s2 → my_pid s1 = my_pid s2 →
  consume_one w1 s1 x = consume_one w2 s2 x.
Proof.
  intros Hr Hl Hp. destruct x as [pid r].
  unfold consume_one, isEnabledFor, getEffectiveLevel. by rewrite Hr, Hl, Hp.
Qed.

Lemma _consume_logs_proc_ext (w1 w2 : World) (s1 s2 : Logregator)
    (input : list (Z * LogRecord)) (sink : list LogRecord) :
  root_level (root w1) = root_level (root w2) →
  logger s1 = logger s2 → my_pid s1 = my_pid s2 →
  _consume_logs_proc w1 s1 input sink = _consume_logs_proc w2 s2 input sink.
Proof.
  intros Hr Hl Hp. revert sink. induction input as [|x input IH]; intros sink.
  - done.
  - simpl. rewrite (consume_one_ext w1 w2 s1 s2 x Hr Hl Hp).
    destruct (consume_one w2 s2 x) as [r d]. apply IH.
Qed.

Lemma stop_started (s : Logregator) (w : World) (t : Thread) (q h : nat)
    (ch : IterableQueue) (lvl : Z) :
  _consumer_thread s = Some t →
  _input_queue s = Some q → _handler s = Some h →
  queues w !! q = Some ch →
  h ∈ root_handlers (root w) →
  old_root_level_of h w = Some lvl →
  stop s w
  = (mkLogregator (logger s) (my_pid s) (_old_process s) None None None,
     mkWorld (mkRoot lvl (list_remove_first h (root_handlers (root w))))
       (heap w)
       (<[q := mkQueue [] true]> (alter no_more_input q (queues w)))
       (restore_process (_old_process s) (Process w))
       (handled w ++ map (pair (logger_name (logger s)))
                       (_consume_logs_proc w s (items ch) [])),
     Return ()).
Proof.
  intros Ht Hq Hh Hch Hin Hold.
  unfold stop, started. rewrite Ht, bool_decide_eq_true_2 by done.
  unfold close_input, join_consumer. rewrite Hq. simpl.
  rewrite lookup_alter_eq, Hch. simpl. rewrite Hh.
  rewrite (_consume_logs_proc_ext _ w _ s (items ch) []) by done.
  set (w2 := set_handled _ _).
  rewrite (uninstall_registered h w2 lvl); [| exact Hin | exact Hold].
  unfold root_removeHandler. rewrite bool_decide_eq_true_2 by exact Hin.
  reflexivity.
Qed.

(** Everything [start] does to a session that is not started. *)
Lemma start_facts (ok : bool) (s : Logregator) (w : World) :
  started s = false →
  ∃ q h,
    (start ok s w).1
    = mkLogregator (logger s) (my_pid s)
        (substitute_process (_old_process s) (Process w)).1 (Some q) (Some h)
        (if ok then Some (mkThread true) else None) ∧
    queues w !! q = None ∧ heap w !! h = None ∧
    (h ∉ root_handlers (root w)) ∧
    root (start ok s w).2
    = mkRoot (NOTSET + 1) (root_handlers (root w) ++ [h]) ∧
    queues (start ok s w).2 = <[q := new_queue]> (queues w) ∧
    Process (start ok s w).2
    = (substitute_process (_old_process s) (Process w)).2 ∧
    handled (start ok s w).2 = handled w ∧
    heap (start ok s w).2 !! h
    = Some (Logregator_handler
              (mkHandler (getEffectiveLevel w (logger s)) q
                 (Some (root_level (root w))))) ∧
    (∀ k, k ≠ h → heap (start ok s w).2 !! k = heap w !! k).
Proof.
  intros Hs. rewrite start_not_started by done.
  destruct (fresh_ref_spec w) as [Hnone Hnin].
  set (q := fresh (dom (queues w))). set (h := fresh_ref w) in *.
  set (wh := set_heap (<[h := Logregator_handler
                              (LogregatorHandler_init
                                 (getEffectiveLevel w (logger s)) q)]> (heap w))
               (set_queues (<[q := new_queue]> (queues w)) w)).
  cbn [fst snd].
  assert (Hwh : h ∉ root_handlers (root wh)) by exact Hnin.
  destruct (install_frame h wh) as (Hq & _ & Hhd & Hother).
  exists q, h. split_and!; try done.
  - apply not_elem_of_dom. apply is_fresh.
  - simpl. by rewrite install_root.
  - simpl. rewrite (install_heap_self h wh
                      (LogregatorHandler_init (getEffectiveLevel w (logger s)) q));
      [done | done |].
    unfold wh; simpl. by rewrite lookup_insert_eq.
  - intros k Hk. simpl. rewrite Hother by done.
    unfold wh; simpl. by rewrite lookup_insert_ne.
Qed.

(** Stopping a started session in a process state [w1] that still has the
    session's handler registered as [start] left it. *)
Lemma stop_after_start (s : Logregator) (w w1 : World) (ch : IterableQueue)
    (q h : nat) :
  started s = false →
  NoDup (map fst (_old_process s)) →
  _input_queue (start true s w).1 = Some q →
  _handler (start true s w).1 = Some h →
  queues w1 !! q = Some ch →
  root w1 = root (start true s w).2 →
  heap w1 !! h = heap (start true s w).2 !! h →
  (∀ c, c ∉ map fst (_old_process s) → Process w1 c = Process w c) →
  ∃ s' w',
    stop (start true s w).1 w1 = (s', w', Return ()) ∧
    started s' = false ∧ _handler s' = None ∧ _input_queue s' = None ∧
    logger s' = logger s ∧ my_pid s' = my_pid s ∧
    map fst (_old_process s') = map fst (_old_process s) ∧
    root w' = root w ∧
    (∀ c, Process w' c = Process w c) ∧
    heap w' = heap w1 ∧
    queues w' !! q = Some (mkQueue [] true) ∧
    (∀ k, k ≠ q → queues w' !! k = queues w1 !! k) ∧
    handled w'
    = handled w1 ++ map (pair (logger_name (logger s)))
                      (_consume_logs_proc w1 s (items ch) []).
Proof.
  intros Hs Hnd.
  destruct (start_facts true s w Hs)
    as (q0 & h0 & Hst & _ & _ & Hnin & Hroot & _ & _ & _ & Hheap & _).
  rewrite Hst. cbn [_input_queue _handler].
  intros [= <-] [= <-] Hch Hr1 Hh1 HP1.
  destruct (substitute_process_spec (_old_process s) (Process w))
    as (Hkeys & _ & _).
  eexists _, _. split.
  { eapply (stop_started _ w1 (mkThread true) q0 h0 ch (root_level (root w)));
      try done.
    - rewrite Hr1, Hroot. simpl. apply elem_of_app. right. by left.
    - unfold old_root_level_of. by rewrite Hh1, Hheap. }
  simpl. split_and!; try done.
  - rewrite Hr1, Hroot. simpl. rewrite list_remove_first_app_new by done.
    apply root_eta.
  - intros c. by apply restore_substitute.
  - by rewrite lookup_insert_eq.
  - intros k Hk. by rewrite lookup_insert_ne, lookup_alter_ne.
  - f_equal. f_equal. by apply _consume_logs_proc_ext.
Qed.

(** ** Sessions from start to stop *)

Lemma first_set_level_app (a b : list Z) :
  first_set_level (a ++ b)
  = if bool_decide (first_set_level a ≠ 0%Z) then first_set_level a
    else first_set_level b.
Proof.
  induction a as [|l a IH]; simpl; [done|].
  destruct (decide (l = 0%Z)) as [Hl|Hl].
  - by rewrite (bool_decide_eq_false_2 (l ≠ 0%Z)) by tauto.
  - by rewrite !(bool_decide_eq_true_2 (l ≠ 0%Z)) by done.
Qed.

(** The sink's effective level is its own, or its nearest ancestor's, when
    one of them is set; otherwise it is the root logger's. *)
Lemma getEffectiveLevel_cases (w : World) (l : Logger) :
  getEffectiveLevel w l
  = if bool_decide (first_set_level (logger_levels l) ≠ 0%Z)
    then first_set_level (logger_levels l)
    else root_level (root w).
Proof.
  unfold getEffectiveLevel. rewrite first_set_level_app. simpl.
  repeat case_bool_decide; done.
Qed.



(** Calling [start] again on a session that started changes nothing. *)
Theorem start_twice (ok : bool) (s : Logregator) (w : World) :
  start ok (start true s w).1 (start true s w).2 = start true s w.
Proof.
  destruct (started s) eqn:Hs.
  - rewrite (start_started true s w Hs). simpl. by apply start_started.
  - assert (Hon : started (start true s w).1 = true).
    { destruct (start_facts true s w Hs) as (q & h & -> & _). done. }
    rewrite (start_started ok _ _ Hon). by destruct (start true s w).
Qed.

(** Sessions nested in one process and stopped innermost first: stopping the
    inner one gives the outer one its process state back, and stopping the
    outer one then restores the root logger and every [ctx.Process]. *)
Theorem nested_sessions_restore (outer inner : Logregator) (w : World) :
  started outer = false → started inner = false →
  NoDup (map fst (_old_process outer)) →
  NoDup (map fst (_old_process inner)) →
  ∃ si wi so wo,
    stop (start true inner (start true outer w).2).1
         (start true inner (start true outer w).2).2 = (si, wi, Return ()) ∧
    root wi = root (start true outer w).2 ∧
    (∀ c, Process wi c = Process (start true outer w).2 c) ∧
    stop (start true outer w).1 wi = (so, wo, Return ()) ∧
    root wo = root w ∧
    (∀ c, Process wo c = Process w c).
Proof.
  intros Hso Hsi Hndo Hndi.
  set (w1 := (start true outer w).2).
  destruct (start_facts true outer w Hso)
    as (q1 & h1 & Hst1 & _ & _ & _ & _ & Hqs1 & HP1 & _ & Hheap1 & _).
  destruct (start_facts true inner w1 Hsi)
    as (q2 & h2 & Hst2 & Hq2 & Hh2 & _ & _ & Hqs2 & HP2 & _ & _ & Hother2).
  fold w1 in Hqs1, HP1, Hheap1.
  assert (Hq12 : q1 ≠ q2).
  { intros ->. by rewrite Hqs1, lookup_insert_eq in Hq2. }
  assert (Hh12 : h1 ≠ h2).
  { intros ->. by rewrite Hheap1 in Hh2. }
  destruct (stop_after_start inner w1 (start true inner w1).2 new_queue q2 h2
              Hsi Hndi)
    as (si & wi & Hstopi & _ & _ & _ & _ & _ & _ & Hri & HPi & Hhi & _ & Hqi & _);
    try (by rewrite Hst2); try done.
  { by rewrite Hqs2, lookup_insert_eq. }
  { intros c Hc. rewrite HP2. by apply substitute_process_spec. }
  destruct (stop_after_start outer w wi new_queue q1 h1 Hso Hndo)
    as (so & wo & Hstopo & _ & _ & _ & _ & _ & _ & Hro & HPo & _);
    try (by rewrite Hst1); try done.
  { rewrite Hqi by done. rewrite Hqs2, lookup_insert_ne by done.
    by rewrite Hqs1, lookup_insert_eq. }
  { rewrite Hhi. by apply Hother2. }
  { intros c Hc. rewrite HPi. fold w1. rewrite HP1.
    by apply substitute_process_spec. }
  exists si, wi, so, wo. by split_and!.
Qed.

Lemma nested_sessions_restore_witness :
  ∃ si wi so wo,
    stop (start true Scenario.inner_session
            (start true Sample.session Sample.w0).2).1
         (start true Scenario.inner_session
            (start true Sample.session Sample.w0).2).2 = (si, wi, Return ()) ∧
    stop (start true Sample.session Sample.w0).1 wi = (so, wo, Return ()) ∧
    root wo = root Sample.w0.
Proof.
  destruct (nested_sessions_restore Sample.session Scenario.inner_session
              Sample.w0)
    as (si & wi & so & wo & Hi & _ & _ & Ho & Hroot & _);
    try reflexivity; try apply Logregator_init_keys.
  by exists si, wi, so, wo.
Defined.

Lemma restore_substitute_in (d : list (Ctx * option ProcessClass))
    (P P' : Ctx → option ProcessClass) (c : Ctx) :
  NoDup (map fst d) → c ∈ map fst d →
  restore_process (substitute_process d P).1 P' c = P c.
Proof.
  intros Hnd Hc.
  destruct (substitute_process_spec d P) as (Hkeys & _ & _).
  pose proof (substitute_process_saved d P Hnd) as Hsaved.
  assert (Hnd' : NoDup (map fst (substitute_process d P).1)) by by rewrite Hkeys.
  destruct (restore_process_spec (substitute_process d P).1 P' c Hnd')
    as [_ Hrin].
  rewrite <- Hkeys in Hc.
  apply list_elem_of_fmap in Hc as ([c' v] & -> & Hin). simpl in *.
  rewrite (Hrin v Hin). by apply Hsaved.
Qed.

(** Sessions nested in one process and stopped outermost first: both [stop]s
    return, the handlers are gone, but the root logger's level stays at
    [NOTSET + 1] and the contexts both sessions cover keep creating
    [LogregatorProcess]es. *)
Theorem stop_out_of_order (outer inner : Logregator) (w : World) :
  started outer = false → started inner = false →
  NoDup (map fst (_old_process inner)) →
  ∃ so wo si wi,
    stop (start true outer w).1
         (start true inner (start true outer w).2).2 = (so, wo, Return ()) ∧
    stop (start true inner (start true outer w).2).1 wo = (si, wi, Return ()) ∧
    root wi = mkRoot (NOTSET + 1) (root_handlers (root w)) ∧
    (∀ c, c ∈ map fst (_old_process outer) →
          c ∈ map fst (_old_process inner) →
          Process wi c = Some LogregatorProcess_cls).
Proof.
  intros Hso Hsi Hndi.
  set (w1 := (start true outer w).2).
  set (w2 := (start true inner w1).2).
  destruct (start_facts true outer w Hso)
    as (q1 & h1 & Hst1 & _ & _ & Hn1 & Hr1 & Hqs1 & HP1 & _ & Hheap1 & _).
  destruct (start_facts true inner w1 Hsi)
    as (q2 & h2 & Hst2 & Hq2 & Hh2 & Hn2 & Hr2 & Hqs2 & HP2 & _ & Hheap2 & Hother2).
  fold w1 in Hr1, Hqs1, HP1, Hheap1. fold w2 in Hr2, Hqs2, HP2, Hheap2, Hother2.
  assert (Hq12 : q1 ≠ q2).
  { intros ->. by rewrite Hqs1, lookup_insert_eq in Hq2. }
  assert (Hh12 : h1 ≠ h2).
  { intros ->. by rewrite Hheap1 in Hh2. }
  rewrite Hr1 in Hn2, Hr2, Hheap2. simpl in Hn2, Hr2, Hheap2.
  apply not_elem_of_app in Hn2 as [Hn2 _].
  eexists _, _, _, _. split.
  { eapply (stop_started _ w2 (mkThread true) q1 h1 new_queue
              (root_level (root w))).
    - by rewrite Hst1.
    - by rewrite Hst1.
    - by rewrite Hst1.
    - rewrite Hqs2, lookup_insert_ne by done. by rewrite Hqs1, lookup_insert_eq.
    - rewrite Hr2. simpl. apply elem_of_app. left. apply elem_of_app. right.
      by left.
    - unfold old_root_level_of. rewrite Hother2 by done. by rewrite Hheap1. }
  split.
  { eapply (stop_started _ _ (mkThread true) q2 h2 new_queue (NOTSET + 1)).
    - by rewrite Hst2.
    - by rewrite Hst2.
    - by rewrite Hst2.
    - simpl. rewrite lookup_insert_ne, lookup_alter_ne by done.
      by rewrite Hqs2, lookup_insert_eq.
    - simpl. rewrite Hr2. simpl. rewrite <- app_assoc. simpl.
      rewrite list_remove_first_mid by done. apply elem_of_app. right. by left.
    - unfold old_root_level_of. simpl. by rewrite Hheap2. }
  simpl. split.
  - rewrite Hr2. simpl. rewrite <- app_assoc. simpl.
    rewrite list_remove_first_mid by done.
    by rewrite list_remove_first_app_new.
  - intros c Hco Hci. rewrite Hst2. simpl.
    rewrite restore_substitute_in by done. rewrite HP1.
    by apply substitute_process_spec.
Qed.

Lemma stop_out_of_order_witness :
  ∃ so wo si wi,
    stop (start true Sample.session Sample.w0).1
         (start true Scenario.inner_session
            (start true Sample.session Sample.w0).2).2 = (so, wo, Return ()) ∧
    stop (start true Scenario.inner_session
            (start true Sample.session Sample.w0).2).1 wo = (si, wi, Return ()) ∧
    root Sample.w0 = mkRoot WARNING [0] ∧
    root wi = mkRoot (NOTSET + 1) [0] ∧
    Process wi spawn_context = Some LogregatorProcess_cls.
Proof.
  destruct (stop_out_of_order Sample.session Scenario.inner_session Sample.w0)
    as (so & wo & si & wi & Ho & Hi & Hroot & HP);
    try reflexivity; try apply Logregator_init_keys.
  exists so, wo, si, wi. split_and!; try done.
  apply HP; vm_compute; left.
Defined.



(** ** More on [emit] *)

(** [emit] never touches the name, the level, the message or the attributes
    of a record, marker included, and never changes more of the queue than
    [put] does. When it raises, it is never [queue.Full]: it is the
    [TypeError] of a record whose [exc_info] is [False], raised before [put]
    is called, record and queue left as they were, or it is what [put]
    raised. *)
Theorem emit_keeps_record {Q : Type} `{QueueLike Q}
    (format_exception : ExcInfo → list string)
    (self : LogregatorHandler) (pid : Z) (record : LogRecord) (q : Q) :
  rec_name (emit format_exception self pid record q).1.1 = rec_name record ∧
  levelno (emit format_exception self pid record q).1.1 = levelno record ∧
  msg (emit format_exception self pid record q).1.1 = msg record ∧
  attrs (emit format_exception self pid record q).1.1 = attrs record ∧
  ((emit format_exception self pid record q).1.2 = q ∨
   (emit format_exception self pid record q).1.2
   = (put q (pid, (emit format_exception self pid record q).1.1)).1) ∧
  (∀ e, (emit format_exception self pid record q).2 = Raise e →
        e ≠ queue_Full ∧
        (e = TypeError ∧ exc_info record = Some exc_False ∧
         (emit format_exception self pid record q).1 = (record, q)
         ∨
         exc_info record ≠ Some exc_False ∧
         (put q (pid, (emit format_exception self pid record q).1.1)).2
         = Raise e)).
Proof.
  unfold emit. destruct (is_handled record); [by split_and!; auto|].
  case_bool_decide as Hlvl; [|by split_and!; auto].
  destruct (exc_info record) as [[ei|]|] eqn:Hei; unfold put_suppressing_Full.
  - set (r' := set_exc_info None _).
    destruct (put q (pid, r')) as [q' [[]|e]] eqn:Hput; [|destruct e]; simpl;
      rewrite ?Hput; simpl; split_and!; auto; intros e' [= <-];
      (split; [done | by right]).
  - simpl. split_and!; auto. intros e' [= <-]. split; [done | by left].
  - destruct (put q (pid, record)) as [q' [[]|e]] eqn:Hput; [|destruct e]; simpl;
      rewrite ?Hput; simpl; split_and!; auto; intros e' [= <-];
      (split; [done | by right]).
Qed.

(** On the session's channel a log call raises only on a record whose
    [exc_info] is [False], unmarked and at or above the handler's level; on
    every other record it returns. The channel keeps its closed flag and
    everything it held, in order, grows by at most the one tagged record, and
    does not change once it is closed. *)
Theorem emit_on_channel (format_exception : ExcInfo → list string)
    (self : LogregatorHandler) (pid : Z) (record : LogRecord)
    (ch : IterableQueue) :
  ((emit format_exception self pid record ch).2 ≠ Return () ↔
   is_handled record = false ∧ (level self ≤ levelno record)%Z ∧
   exc_info record = Some exc_False) ∧
  (exc_info record ≠ Some exc_False →
   (emit format_exception self pid record ch).2 = Return ()) ∧
  closed (emit format_exception self pid record ch).1.2 = closed ch ∧
  (items (emit format_exception self pid record ch).1.2 = items ch ∨
   items (emit format_exception self pid record ch).1.2
   = items ch ++ [(pid, (emit format_exception self pid record ch).1.1)]) ∧
  (closed ch = true → (emit format_exception self pid record ch).1.2 = ch).
Proof.
  unfold emit. destruct (is_handled record).
  { split_and!; auto. split; [done | by intros (? & _)]. }
  case_bool_decide as Hlvl; cycle 1.
  { split_and!; auto. split; [done | by intros (_ & ? & _)]. }
  destruct (exc_info record) as [[ei|]|] eqn:Hei;
    unfold put_suppressing_Full, put, IterableQueue_put;
    try (destruct (closed ch) eqn:Hc); simpl; rewrite ?Hc;
    split_and!; auto; try done;
    split; try done; by intros (_ & _ & ?).
Qed.

(** ** More on the consumer loop *)

Lemma consume_one_passes_iff (w : World) (s : Logregator) (x : Z * LogRecord) :
  consume_one w s x
  = if passes w s x then (forwarded s x, true) else (x.2, false).
Proof.
  destruct x as [pid r]. unfold passes, forwarded. simpl.
  destruct (isEnabledFor w (logger s) (levelno r)) eqn:Hen; simpl.
  - destruct (decide (pid = my_pid s ∧ rec_name r = logger_name (logger s)))
      as [[Hp Hn]|Hno].
    + rewrite !bool_decide_eq_true_2 by done. simpl.
      unfold consume_one. rewrite Hen. simpl.
      rewrite bool_decide_eq_false_2 by (intros Hne; by apply Hne).
      by rewrite bool_decide_eq_true_2.
    + rewrite consume_one_passes by done.
      assert (bool_decide (pid = my_pid s)
              && bool_decide (rec_name r = logger_name (logger s)) = false)
        as ->; [|done].
      apply andb_false_iff.
      destruct (decide (pid = my_pid s)) as [Hp|Hp].
      * right. apply bool_decide_eq_false_2. tauto.
      * left. by apply bool_decide_eq_false_2.
  - unfold consume_one. by rewrite Hen.
Qed.

(** The sink receives exactly the tagged records that pass in the process
    state in which the consumer runs, each rewritten and marked, in the order
    the channel delivered them. *)
Theorem _consume_logs_proc_in_order (w : World) (s : Logregator)
    (input : list (Z * LogRecord)) (sink : list LogRecord) :
  _consume_logs_proc w s input sink
  = sink ++ map (forwarded s) (List.filter (passes w s) input) ∧
  length (_consume_logs_proc w s input sink) ≤ length sink + length input.
Proof.
  assert (Heq : ∀ sink, _consume_logs_proc w s input sink
                = sink ++ map (forwarded s) (List.filter (passes w s) input)).
  { induction input as [|x input IH]; intros sink0; simpl.
    - by rewrite app_nil_r.
    - rewrite consume_one_passes_iff. destruct (passes w s x); simpl.
      + rewrite IH. by rewrite <- app_assoc.
      + apply IH. }
  split; [apply Heq|]. rewrite Heq, length_app, length_map.
  pose proof (List.filter_length_le (passes w s) input). lia.
Qed.

(** A record reaches the sink only if the sink logger is not disabled and
    the record's level is above [manager.disable] and at or above the sink's
    effective level in the process state in which the consumer runs; that
    level is the sink's own or its nearest ancestor's when one of them is
    set, and the root logger's current level otherwise. The level of a record
    is not changed on the way. *)
Theorem sink_level_respected (w : World) (s : Logregator)
    (input : list (Z * LogRecord)) (r' : LogRecord) :
  r' ∈ _consume_logs_proc w s input [] →
  logger_disabled (logger s) = false ∧
  (manager_disable (logger s) < levelno r')%Z ∧
  (getEffectiveLevel w (logger s) ≤ levelno r')%Z ∧
  (first_set_level (logger_levels (logger s)) ≠ 0%Z →
   (first_set_level (logger_levels (logger s)) ≤ levelno r')%Z) ∧
  (first_set_level (logger_levels (logger s)) = 0%Z →
   (root_level (root w) ≤ levelno r')%Z) ∧
  ∃ pid r, (pid, r) ∈ input ∧ levelno r = levelno r' ∧ rec_name r = rec_name r'.
Proof.
  intros Hin. apply _consume_logs_proc_elem in Hin as [Hin|(pid & r & Hin & Hc)].
  { by apply elem_of_nil in Hin. }
  apply consume_one_dispatched in Hc as (-> & Hen & _). simpl.
  unfold isEnabledFor in Hen.
  destruct (logger_disabled (logger s)); [done|].
  case_bool_decide as Hd; [done|]. apply bool_decide_eq_true_1 in Hen.
  pose proof (getEffectiveLevel_cases w (logger s)) as Hcases.
  split_and!; [done | lia | done | | | by exists pid, r].
  - intros Hset. rewrite bool_decide_eq_true_2 in Hcases by done. lia.
  - intros Hunset. rewrite bool_decide_eq_false_2 in Hcases by tauto. lia.
Qed.

Lemma sink_level_respected_witness :
  (getEffectiveLevel Sample.w0 Sample.S
   ≤ levelno (forwarded Sample.session (4242%Z, Sample.hello)))%Z ∧
  (INFO ≤ levelno (forwarded Sample.session (4242%Z, Sample.hello)))%Z.
Proof.
  destruct (sink_level_respected Sample.w0 Sample.session
              [(4242%Z, Sample.hello)]
              (forwarded Sample.session (4242%Z, Sample.hello)))
    as (_ & _ & Hle & Hown & _).
  - vm_compute. left.
  - split; [exact Hle|]. apply Hown. vm_compute. discriminate.
Defined.

Lemma dispatched_is_ignored_witness :
  emit Sample.format_exception (LogregatorHandler_init NOTSET 0) 100
    (forwarded Sample.session (4242%Z, Sample.hello)) new_queue
  = (forwarded Sample.session (4242%Z, Sample.hello), new_queue, Return ()).
Proof.
  apply (dispatched_is_ignored Sample.format_exception Sample.w0 Sample.session
           [(4242%Z, Sample.hello)]).
  vm_compute. left.
Defined.

(** ** More on [LogregatorProcess] *)

Lemma install_all_levels (hs : list nat) (w : World) :
  NoDup hs →
  (∀ k, k ∈ hs → k ∉ root_handlers (root w)) →
  (∀ k, k ∈ hs → ∃ h, heap w !! k = Some (Logregator_handler h)) →
  ∀ i k, hs !! i = Some k →
    old_root_level_of k (for_each (λ h, modify (install h)) hs w).1
    = Some (match i with
            | 0 => root_level (root w)
            | S _ => (NOTSET + 1)%Z
            end).
Proof.
  intros Hnd. revert w. induction Hnd as [|k0 hs Hk0 Hnd IH]; intros w Hout Hobj i k Hik.
  - done.
  - rewrite for_each_cons. unfold modify at 1.
    assert (Hk0w : k0 ∉ root_handlers (root w)) by (apply Hout; left).
    destruct (Hobj k0) as [h0 Hh0]; [left|].
    destruct (install_frame k0 w) as (_ & _ & _ & Hother).
    assert (Hout' : ∀ k', k' ∈ hs → k' ∉ root_handlers (root (install k0 w))).
    { intros k' Hin. rewrite install_root by done. simpl.
      apply not_elem_of_app. split; [apply Hout; by right|].
      intros ->%list_elem_of_singleton. done. }
    assert (Hobj' : ∀ k', k' ∈ hs →
              ∃ h, heap (install k0 w) !! k' = Some (Logregator_handler h)).
    { intros k' Hin. rewrite Hother; [apply Hobj; by right|]. by intros ->. }
    destruct i as [|j]; simpl in Hik.
    + injection Hik as <-.
      destruct (install_all_spec hs (install k0 w) Hnd Hout')
        as (w' & Hrun & _ & _ & _ & _ & Hkeep & _).
      rewrite Hrun. simpl. unfold old_root_level_of. rewrite Hkeep by done.
      by rewrite (install_heap_self k0 w h0).
    + rewrite (IH (install k0 w) Hout' Hobj' j k Hik).
      destruct j; [|done]. by rewrite install_root.
Qed.

Lemma uninstall_all_levels (hs : list nat) (w : World) (rh0 : list nat)
    (f : nat → Z) :
  root_handlers (root w) = rh0 ++ hs →
  NoDup (rh0 ++ hs) →
  (∀ k, k ∈ hs → old_root_level_of k w = Some (f k)) →
  ∃ w', for_each uninstall hs w = (w', Return ()) ∧
        root_handlers (root w') = rh0 ∧
        root_level (root w') = foldl (λ _ k, f k) (root_level (root w)) hs ∧
        heap w' = heap w.
Proof.
  revert w. induction hs as [|k hs IH]; intros w Hrh Hnd Hold.
  - exists w. rewrite app_nil_r in Hrh. by split_and!.
  - apply NoDup_app in Hnd as (Hnd0 & Hdisj & Hndk).
    apply NoDup_cons in Hndk as [Hk Hnds].
    assert (Hk0 : k ∉ rh0) by (intros Hin; apply (Hdisj k Hin); left).
    assert (Hin : k ∈ root_handlers (root w)).
    { rewrite Hrh. apply elem_of_app. right. left. }
    set (wa := root_setLevel (f k) (root_removeHandler k w)).
    assert (Hwa : root_handlers (root wa) = rh0 ++ hs ∧ heap wa = heap w ∧
                  root_level (root wa) = f k).
    { unfold wa, root_removeHandler. rewrite bool_decide_eq_true_2 by done.
      simpl. by rewrite Hrh, list_remove_first_mid. }
    destruct Hwa as (Hrha & Hha & Hla).
    assert (Hnda : NoDup (rh0 ++ hs)).
    { apply NoDup_app. split_and!; [done | | done].
      intros x Hx Hx'. apply (Hdisj x Hx). by right. }
    assert (Holda : ∀ k', k' ∈ hs → old_root_level_of k' wa = Some (f k')).
    { intros k' Hk'. unfold old_root_level_of. rewrite Hha.
      apply Hold. by right. }
    destruct (IH wa Hrha Hnda Holda) as (w' & Hrun & Hrh' & Hl' & Hh').
    rewrite Hla in Hl'.
    exists w'. rewrite for_each_cons.
    rewrite (uninstall_registered k w (f k)); [|done|apply Hold; left].
    fold wa. rewrite Hrun. split_and!; try done.
    by rewrite Hh'.
Qed.

Lemma foldl_last_applied (f : nat → Z) (a : Z) (l : list nat) (x : nat) :
  foldl (λ _ k, f k) a (l ++ [x]) = f x.
Proof. by rewrite foldl_app. Qed.

(** [run] uninstalls in the order it installed. When the target leaves the
    root logger and the handler objects alone, the root logger's handler list
    is restored; its level is restored with at most one snapshot entry, and
    is left at [NOTSET + 1] with two or more. The outcome is the target's. *)
Theorem run_root_logger_after (snapshot : list (Z * nat)) (worker : World)
    (target : M World unit) :
  NoDup (root_handlers (root worker)) →
  (∀ w, root (target w).1 = root w) →
  (∀ w k o, heap w !! k = Some o → heap (target w).1 !! k = Some o) →
  root_handlers (root (run target snapshot worker).1)
  = root_handlers (root worker) ∧
  root_level (root (run target snapshot worker).1)
  = match snapshot with
    | [] | [_] => root_level (root worker)
    | _ :: _ :: _ => (NOTSET + 1)%Z
    end ∧
  ∃ at_entry, (run_enter snapshot worker).1 = at_entry ∧
              (run target snapshot worker).2 = (target at_entry).2.
Proof.
  intros Hnd Hroot Hframe.
  destruct (construct_handlers_spec snapshot worker)
    as (wc & hs & Hc & Hr & _ & _ & _ & Hnd_hs & Hfresh & _ & Hobj).
  assert (Hout : ∀ k, k ∈ hs → k ∉ root_handlers (root wc)).
  { intros k Hk. rewrite Hr. by apply Hfresh. }
  assert (Hobjs : ∀ k, k ∈ hs → ∃ h, heap wc !! k = Some (Logregator_handler h)).
  { intros k [i Hk]%list_elem_of_lookup.
    destruct (Forall2_lookup_l _ _ _ _ _ Hobj Hk) as (e & _ & He). eauto. }
  destruct (install_all_spec hs wc Hnd_hs Hout)
    as (w1 & Hinst & Hrh & _ & _ & _ & _ & _).
  pose proof (install_all_levels hs wc Hnd_hs Hout Hobjs) as Hlevels.
  rewrite Hinst in Hlevels. simpl in Hlevels.
  assert (Henter : run_enter snapshot worker = (w1, Return hs)).
  { unfold run_enter, mbind, M_bind. rewrite Hc.
    change (for_each _ hs wc) with (for_each (λ h, modify (install h)) hs wc).
    by rewrite Hinst. }
  destruct (target w1) as [w2 o] eqn:Ht.
  pose proof (Hroot w1) as Hr2. rewrite Ht in Hr2. simpl in Hr2.
  set (f := λ k, if decide (hs !! 0 = Some k)
                 then root_level (root worker) else (NOTSET + 1)%Z).
  destruct (uninstall_all_levels hs w2 (root_handlers (root worker)) f)
    as (w3 & Hun & Hrh3 & Hl3 & _).
  { by rewrite Hr2, Hrh, Hr. }
  { apply NoDup_app. split_and!; [done | | done].
    intros k Hk1 Hk2. by apply Hfresh in Hk2 as [_ ?]. }
  { intros k [i Hk]%list_elem_of_lookup.
    assert (Hold : old_root_level_of k w2 = old_root_level_of k w1).
    { pose proof (Hlevels i k Hk) as Hl. unfold old_root_level_of in *.
      destruct (heap w1 !! k) as [o1|] eqn:E; [|done].
      pose proof (Hframe w1 k o1 E) as E2. rewrite Ht in E2. simpl in E2.
      by rewrite E2. }
    rewrite Hold, (Hlevels i k Hk). unfold f. rewrite Hr.
    destruct i as [|j].
    - by rewrite decide_True.
    - rewrite decide_False; [done|]. intros H0.
      apply (NoDup_lookup _ 0 (S j) k Hnd_hs H0) in Hk. done. }
  assert (Hrun : run target snapshot worker = (w3, o)).
  { unfold run, mbind, M_bind. rewrite Henter. unfold try_finally.
    by rewrite Ht, Hun. }
  rewrite Hrun, Henter. simpl. split; [done|]. split.
  - rewrite Hl3, Hr2.
    pose proof (Forall2_length _ _ _ Hobj) as Hlen.
    destruct hs as [|k0 [|k1 hs']], snapshot as [|e0 [|e1 snapshot']];
      simpl in Hlen; try lia.
    + simpl. rewrite <- Hr. destruct (install_all_spec [] wc) as (w1' & E & _);
        [constructor | done |]. simpl in Hinst. by injection Hinst as <-.
    + simpl. unfold f. by rewrite decide_True.
    + destruct (exists_last (l := k1 :: hs')) as (l' & x & Hlast); [done|].
      change (k0 :: k1 :: hs') with ([k0] ++ (k1 :: hs')).
      rewrite Hlast, app_assoc, foldl_last_applied. unfold f.
      rewrite decide_False; [done|]. simpl. intros [= ->].
      apply NoDup_cons in Hnd_hs as [Hk0 _]. apply Hk0.
      rewrite Hlast. apply elem_of_app. right. left.
  - exists w1. by rewrite Ht.
Qed.

Lemma run_root_logger_after_witness :
  root (run (λ w, (w, Raise (OtherException "target failed")))
          [(INFO, 0)] Sample.w0).1 = root Sample.w0 ∧
  root (run (λ w, (w, Raise (OtherException "target failed")))
          [(INFO, 0); (DEBUG, 1)] Sample.w0).1
  = mkRoot (NOTSET + 1) (root_handlers (root Sample.w0)).
Proof.
  assert (Hnd : NoDup (root_handlers (root Sample.w0))).
  { vm_compute. apply NoDup_singleton. }
  split.
  - destruct (run_root_logger_after [(INFO, 0)] Sample.w0
                (λ w, (w, Raise (OtherException "target failed"))))
      as (Hh & Hl & _); [done | done | done |].
    destruct (root (run _ _ _).1) as [l hs]. simpl in *. by subst.
  - destruct (run_root_logger_after [(INFO, 0); (DEBUG, 1)] Sample.w0
                (λ w, (w, Raise (OtherException "target failed"))))
      as (Hh & Hl & _); [done | done | done |].
    destruct (root (run _ _ _).1) as [l hs]. simpl in *. by subst.
Defined.

Lemma LogregatorProcess_init_ext (w1 w2 : World) :
  root_handlers (root w1) = root_handlers (root w2) →
  (∀ k, k ∈ root_handlers (root w2) → heap w1 !! k = heap w2 !! k) →
  LogregatorProcess_init w1 = LogregatorProcess_init w2.
Proof.
  unfold LogregatorProcess_init. intros -> Hheap.
  apply list_omap_ext. apply Forall_Forall2_diag, Forall_forall.
  intros k Hk. by rewrite (Hheap k Hk).
Qed.

(** A process object constructed while a session is started carries the
    session's handler: the snapshot is the one of before [start] followed by
    the sink's effective level paired with the session's channel. Once the
    session is stopped, the snapshot is again the one of before [start]. *)
Theorem snapshot_during_session (s : Logregator) (w : World) :
  started s = false →
  NoDup (map fst (_old_process s)) →
  ∃ q,
    _input_queue (start true s w).1 = Some q ∧
    LogregatorProcess_init (start true s w).2
    = LogregatorProcess_init w ++ [(getEffectiveLevel w (logger s), q)] ∧
    LogregatorProcess_init (stop (start true s w).1 (start true s w).2).1.2
    = LogregatorProcess_init w.
Proof.
  intros Hs Hnd.
  destruct (start_facts true s w Hs)
    as (q & h & Hst & _ & Hnone & Hnin & Hroot & Hqs & HP & _ & Hh & Hother).
  exists q. split; [by rewrite Hst|]. split.
  - unfold LogregatorProcess_init at 1. rewrite Hroot. simpl.
    rewrite omap_app. simpl. rewrite Hh. simpl. f_equal.
    change (omap _ (root_handlers (root w)))
      with (LogregatorProcess_init
              (set_root (root w) (start true s w).2)).
    apply LogregatorProcess_init_ext; [done|].
    intros k Hk. simpl. apply Hother. by intros ->.
  - destruct (stop_after_start s w (start true s w).2 new_queue q h Hs Hnd)
      as (s' & w' & Hstop & _ & _ & _ & _ & _ & _ & Hr' & _ & Hh' & _);
      try (by rewrite Hst); try done.
    { by rewrite Hqs, lookup_insert_eq. }
    { intros c Hc. rewrite HP. by apply substitute_process_spec. }
    rewrite Hstop. simpl. apply LogregatorProcess_init_ext; [by rewrite Hr'|].
    intros k Hk. rewrite Hh'. apply Hother. by intros ->.
Qed.

Lemma snapshot_during_session_witness :
  ∃ q,
    _input_queue (start true Sample.session Sample.w0).1 = Some q ∧
    LogregatorProcess_init (start true Sample.session Sample.w0).2
    = LogregatorProcess_init Sample.w0 ++ [(INFO, q)].
Proof.
  destruct (snapshot_during_session Sample.session Sample.w0)
    as (q & Hq & Hsnap & _).
  - reflexivity.
  - apply Logregator_init_keys.
  - by exists q.
Defined.

(** Which spawn primitives a session substitutes depends on the start method
    at construction: the spawn context's always; those of the modules [mp]
    and [mp.context] only when the start method is ["spawn"], and otherwise
    they are left as they are. *)
Theorem start_substitutes_by_start_method (lg : Logger) (pid : Z)
    (start_method : string) (ok : bool) (w : World) :
  Process (start ok (Logregator_init lg pid start_method) w).2 spawn_context
  = Some LogregatorProcess_cls ∧
  (start_method = "spawn" →
   ∀ c, Process (start ok (Logregator_init lg pid start_method) w).2 c
        = Some LogregatorProcess_cls) ∧
  (start_method ≠ "spawn" →
   ∀ c, c ≠ spawn_context →
        Process (start ok (Logregator_init lg pid start_method) w).2 c
        = Process w c).
Proof.
  set (s := Logregator_init lg pid start_method).
  destruct (start_facts ok s w eq_refl)
    as (q & h & _ & _ & _ & _ & _ & _ & -> & _).
  destruct (substitute_process_spec (_old_process s) (Process w))
    as (_ & Hin & Hout).
  split_and!.
  - apply Hin. simpl. left.
  - intros Hsm c. apply Hin. simpl. rewrite bool_decide_eq_true_2 by done.
    simpl. destruct c; [left | right; left | right; right; left].
  - intros Hsm c Hc. apply Hout. simpl.
    rewrite bool_decide_eq_false_2 by done. simpl.
    by intros ->%list_elem_of_singleton.
Qed.

Lemma start_substitutes_by_start_method_witness :
  Process (start true Scenario.inner_session Sample.w0).2 mp_module
  = Process Sample.w0 mp_module ∧
  Process (start true Sample.session Sample.w0).2 mp_module
  = Some LogregatorProcess_cls.
Proof.
  split.
  - apply (start_substitutes_by_start_method Scenario.T 100 "fork" true
             Sample.w0); discriminate.
  - apply (start_substitutes_by_start_method Sample.S 100 "spawn" true
             Sample.w0). reflexivity.
Defined.

(** ** [logger.py] *)

Lemma string_app_nonempty (a b : string) : a ≠ "" → a +:+ b ≠ "".
Proof. by destruct a. Qed.

(** The name [get_logger] picks for a caller is never empty: it is
    ["module.function"] inside a function of a named module, the module's
    name at module level, and ["<default>"] when the frame gives nothing. *)
Theorem context_name_cases (caller : logger_py.Frame) :
  logger_py.context_name caller ≠ "" ∧
  (∀ m, logger_py.frame_module_name caller = Some m → m ≠ "" →
        logger_py.frame_function caller = "<module>" →
        logger_py.context_name caller = m) ∧
  (∀ m, logger_py.frame_module_name caller = Some m → m ≠ "" →
        logger_py.frame_function caller ≠ "<module>" →
        logger_py.frame_function caller ≠ "" →
        logger_py.context_name caller
        = m +:+ "." +:+ logger_py.frame_function caller) ∧
  (logger_py.truthy (logger_py.frame_module_name caller) = false →
   logger_py.frame_function caller = "<module>" ∨
   logger_py.frame_function caller = "" →
   logger_py.context_name caller = "<default>").
Proof.
  destruct caller as [m f]. unfold logger_py.context_name. simpl. split_and!.
  - destruct m as [m|]; simpl; repeat (case_bool_decide; simpl);
      simplify_eq; try done; by apply string_app_nonempty.
  - intros m' -> Hm ->. simpl.
    repeat (case_bool_decide; simpl); simplify_eq; done.
  - intros m' -> Hm Hf Hf'. simpl.
    repeat (case_bool_decide; simpl); simplify_eq; done.
  - intros Hm Hf. rewrite Hm. simpl.
    destruct Hf as [-> | ->]; repeat (case_bool_decide; simpl);
      simplify_eq; done.
Qed.

Lemma context_name_cases_witness :
  logger_py.context_name
    (logger_py.mkFrame (Some "epic.logging.tests.test_logger")
       "test_unnamed_in_function")
  = "epic.logging.tests.test_logger.test_unnamed_in_function" ∧
  logger_py.context_name
    (logger_py.mkFrame (Some "epic.logging.tests.test_logger") "<module>")
  = "epic.logging.tests.test_logger".
Proof.
  split.
  - destruct (context_name_cases
                (logger_py.mkFrame (Some "epic.logging.tests.test_logger")
                   "test_unnamed_in_function")) as (_ & _ & Hfun & _).
    by rewrite (Hfun "epic.logging.tests.test_logger").
  - destruct (context_name_cases
                (logger_py.mkFrame (Some "epic.logging.tests.test_logger")
                   "<module>")) as (_ & Hmod & _).
    by rewrite (Hmod "epic.logging.tests.test_logger").
Defined.

Section logger_py_properties.
Variable repr : string → string.
Variable hasHandlers : logger_py.Logging → option string → bool.
Variable open_file : string → string → option Exn.

Lemma bind_unfold {S A B} (m : M S A) (k : A → M S B) (s : S) :
  (m ≫= k) s
  = match m s with
    | (s', Return a) => k a s'
    | (s', Raise e) => (s', Raise e)
    end.
Proof. reflexivity. Qed.

Lemma Logging_eta (st : logger_py.Logging) :
  logger_py.mkLogging (logger_py.loggers st) (logger_py.handler_objs st) = st.
Proof. by destruct st. Qed.

Lemma getLogger_spec (name : string) (st : logger_py.Logging) :
  logger_py.getLogger name st
  = (logger_py.set_loggers
       (<[logger_key name := logger_py.the_logger (logger_key name) st]>
          (logger_py.loggers st)) st,
     Return (logger_key name)).
Proof.
  unfold logger_py.getLogger, logger_key.
  by destruct (bool_decide (name = "") || bool_decide (name = "root")).
Qed.

Lemma the_logger_insert (key : option string) (lg : logger_py.PyLogger)
    (st : logger_py.Logging) :
  logger_py.the_logger key
    (logger_py.set_loggers (<[key := lg]> (logger_py.loggers st)) st) = lg.
Proof. unfold logger_py.the_logger. simpl. by rewrite lookup_insert_eq. Qed.

Lemma update_logger_insert (f : logger_py.PyLogger → logger_py.PyLogger)
    (key : option string) (lg : logger_py.PyLogger) (st : logger_py.Logging) :
  logger_py.update_logger f key
    (logger_py.set_loggers (<[key := lg]> (logger_py.loggers st)) st)
  = (logger_py.set_loggers (<[key := f lg]> (logger_py.loggers st)) st,
     Return ()).
Proof.
  unfold logger_py.update_logger, modify. rewrite the_logger_insert.
  unfold logger_py.set_loggers. simpl. by rewrite insert_insert_eq.
Qed.

Lemma addHandlers_spec (hs hs0 : list nat) (key : option string) (l : Z)
    (st : logger_py.Logging) :
  NoDup (hs0 ++ hs) →
  for_each (λ h, logger_py.Logger_addHandler h key) hs
    (logger_py.set_loggers
       (<[key := logger_py.mkPyLogger l hs0]> (logger_py.loggers st)) st)
  = (logger_py.set_loggers
       (<[key := logger_py.mkPyLogger l (hs0 ++ hs)]> (logger_py.loggers st)) st,
     Return ()).
Proof.
  revert hs0. induction hs as [|h hs IH]; intros hs0 Hnd.
  - by rewrite app_nil_r.
  - rewrite for_each_cons. unfold logger_py.Logger_addHandler at 1.
    rewrite update_logger_insert. simpl.
    apply NoDup_app in Hnd as Hnd'. destruct Hnd' as (_ & Hdisj & _).
    rewrite bool_decide_eq_false_2.
    + rewrite IH; [by rewrite <- app_assoc | by rewrite <- app_assoc].
    + intros Hin. apply (Hdisj h Hin). left.
Qed.

(** The whole effect of [get_logger] when handlers are given and the level is
    valid. *)
Lemma get_logger_with_handlers (name : string) (caller : logger_py.Frame)
    (lvl : logger_py.LogLevel) (n : Z) (h : nat) (hs : list nat)
    (st : logger_py.Logging) :
  logger_py._checkLevel repr lvl = Return n →
  NoDup (h :: hs) →
  logger_py.get_logger repr hasHandlers (Some name) caller lvl (h :: hs) st
  = (logger_py.set_loggers
       (<[logger_key name := logger_py.mkPyLogger n (h :: hs)]>
          (logger_py.loggers st)) st,
     Return (logger_key name)).
Proof.
  intros Hlvl Hnd. unfold logger_py.get_logger.
  rewrite bind_unfold, getLogger_spec.
  rewrite bind_unfold, bind_unfold, update_logger_insert.
  rewrite (addHandlers_spec (h :: hs) [] _ _ st) by done. simpl.
  unfold logger_py.Logger_setLevel. rewrite Hlvl.
  by rewrite bind_unfold, update_logger_insert.
Qed.

(** [get_logger] with handlers: the logger ends up with exactly the handlers
    given, in the order given, whatever handlers it had; its level is the
    one given; no other logger and no handler object changes; and asking
    again with the same arguments changes nothing more. *)
Theorem get_logger_sets_handlers (name : string) (caller : logger_py.Frame)
    (lvl : logger_py.LogLevel) (n : Z) (h : nat) (hs : list nat)
    (st : logger_py.Logging) :
  logger_py._checkLevel repr lvl = Return n →
  NoDup (h :: hs) →
  ∃ st',
    logger_py.get_logger repr hasHandlers (Some name) caller lvl (h :: hs) st
    = (st', Return (logger_key name)) ∧
    logger_py.loggers st' !! logger_key name
    = Some (logger_py.mkPyLogger n (h :: hs)) ∧
    (∀ k, k ≠ logger_key name →
          logger_py.loggers st' !! k = logger_py.loggers st !! k) ∧
    logger_py.handler_objs st' = logger_py.handler_objs st ∧
    logger_py.get_logger repr hasHandlers (Some name) caller lvl (h :: hs) st'
    = (st', Return (logger_key name)).
Proof.
  intros Hlvl Hnd. eexists.
  split; [by apply (get_logger_with_handlers name caller lvl n)|].
  simpl. split_and!.
  - by rewrite lookup_insert_eq.
  - intros k Hk. by rewrite lookup_insert_ne.
  - done.
  - rewrite (get_logger_with_handlers name caller lvl n) by done.
    unfold logger_py.set_loggers. simpl. by rewrite insert_insert_eq.
Qed.

Lemma checkLevel_names (nm : string) (n : Z) :
  (nm, n) ∈ logger_py._nameToLevel →
  logger_py._checkLevel repr (logger_py.level_str nm) = Return n.
Proof.
  unfold logger_py._nameToLevel. rewrite !elem_of_cons, elem_of_nil.
  intros H. repeat (destruct H as [[= -> ->]|H]; [reflexivity|]). done.
Qed.

(** A level given by one of the names of the standard table is the level
    given by its number, for [get_logger] with any other arguments. *)
Theorem get_logger_level_names (nm : string) (n : Z) (name : option string)
    (caller : logger_py.Frame) (handlers : list nat) (st : logger_py.Logging) :
  (nm, n) ∈ logger_py._nameToLevel →
  logger_py.get_logger repr hasHandlers name caller (logger_py.level_str nm)
    handlers st
  = logger_py.get_logger repr hasHandlers name caller (logger_py.level_int n)
      handlers st.
Proof.
  intros Hnm. unfold logger_py.get_logger, logger_py.Logger_setLevel.
  by rewrite (checkLevel_names nm n Hnm).
Qed.

Lemma get_logger_no_handlers_kept (name : string) (caller : logger_py.Frame)
    (lvl : logger_py.LogLevel) (n : Z) (st : logger_py.Logging) :
  logger_py._checkLevel repr lvl = Return n →
  hasHandlers
    (logger_py.set_loggers
       (<[logger_key name := logger_py.the_logger (logger_key name) st]>
          (logger_py.loggers st)) st) (logger_key name) = true →
  logger_py.get_logger repr hasHandlers (Some name) caller lvl [] st
  = (logger_py.set_loggers
       (<[logger_key name :=
            logger_py.mkPyLogger n
              (logger_py.lg_handlers (logger_py.the_logger (logger_key name) st))]>
          (logger_py.loggers st)) st,
     Return (logger_key name)).
Proof.
  intros Hlvl Hhas. unfold logger_py.get_logger.
  rewrite bind_unfold, getLogger_spec.
  rewrite bind_unfold, bind_unfold. unfold logger_py.gets at 1. rewrite Hhas.
  simpl. unfold logger_py.Logger_setLevel. rewrite Hlvl.
  by rewrite bind_unfold, update_logger_insert.
Qed.

Lemma get_logger_no_handlers_added (name : string) (caller : logger_py.Frame)
    (lvl : logger_py.LogLevel) (n : Z) (st : logger_py.Logging) :
  logger_py._checkLevel repr lvl = Return n →
  hasHandlers
    (logger_py.set_loggers
       (<[logger_key name := logger_py.the_logger (logger_key name) st]>
          (logger_py.loggers st)) st) (logger_key name) = false →
  logger_py.lg_handlers (logger_py.the_logger (logger_key name) st) = [] →
  logger_py.get_logger repr hasHandlers (Some name) caller lvl [] st
  = (logger_py.mkLogging
       (<[logger_key name :=
            logger_py.mkPyLogger n [fresh (dom (logger_py.handler_objs st))]]>
          (logger_py.loggers st))
       (<[fresh (dom (logger_py.handler_objs st)) :=
            logger_py.mkPyHandler logger_py.NullKind NOTSET None]>
          (logger_py.handler_objs st)),
     Return (logger_key name)).
Proof.
  intros Hlvl Hhas Hold. unfold logger_py.get_logger.
  rewrite bind_unfold, getLogger_spec.
  rewrite bind_unfold, bind_unfold. unfold logger_py.gets at 1. rewrite Hhas.
  cbn [negb]. rewrite bind_unfold. unfold logger_py.new_handler at 1.
  cbn [logger_py.handler_objs logger_py.set_loggers].
  set (h := fresh (dom (logger_py.handler_objs st))).
  set (objs := <[h := _]> (logger_py.handler_objs st)).
  change (logger_py.set_handler_objs objs
            (logger_py.set_loggers
               (<[logger_key name := logger_py.the_logger (logger_key name) st]>
                  (logger_py.loggers st)) st))
    with (logger_py.set_loggers
            (<[logger_key name := logger_py.the_logger (logger_key name) st]>
               (logger_py.loggers (logger_py.set_handler_objs objs st)))
            (logger_py.set_handler_objs objs st)).
  unfold logger_py.Logger_addHandler. rewrite update_logger_insert, Hold.
  rewrite bool_decide_eq_false_2 by apply not_elem_of_nil.
  unfold logger_py.Logger_setLevel. rewrite Hlvl.
  rewrite bind_unfold, update_logger_insert. reflexivity.
Qed.

(** [get_logger] without handlers, for any [hasHandlers] that is true of a
    logger with handlers of its own and that does not look at levels: the
    logger has handlers afterwards, a logger that had handlers of its own
    keeps exactly those and no handler object is created, and the logger's
    level is the one given, whatever it was. *)
Theorem get_logger_without_handlers (name : string) (caller : logger_py.Frame)
    (lvl : logger_py.LogLevel) (n : Z) (st : logger_py.Logging) :
  (∀ st0 key, logger_py.lg_handlers (logger_py.the_logger key st0) ≠ [] →
              hasHandlers st0 key = true) →
  (∀ st0 key k m,
     hasHandlers
       (logger_py.set_loggers
          (<[k := logger_py.mkPyLogger m
                    (logger_py.lg_handlers (logger_py.the_logger k st0))]>
             (logger_py.loggers st0)) st0) key
     = hasHandlers
         (logger_py.set_loggers
            (<[k := logger_py.the_logger k st0]> (logger_py.loggers st0)) st0)
         key) →
  logger_py._checkLevel repr lvl = Return n →
  ∃ st',
    logger_py.get_logger repr hasHandlers (Some name) caller lvl [] st
    = (st', Return (logger_key name)) ∧
    hasHandlers st' (logger_key name) = true ∧
    logger_py.lg_level (logger_py.the_logger (logger_key name) st') = n ∧
    (∀ k, k ≠ logger_key name →
          logger_py.loggers st' !! k = logger_py.loggers st !! k) ∧
    (logger_py.lg_handlers (logger_py.the_logger (logger_key name) st) ≠ [] →
     logger_py.lg_handlers (logger_py.the_logger (logger_key name) st')
     = logger_py.lg_handlers (logger_py.the_logger (logger_key name) st) ∧
     logger_py.handler_objs st' = logger_py.handler_objs st).
Proof.
  intros Hown Hlevel Hlvl.
  set (key := logger_key name).
  set (st1 := logger_py.set_loggers
                (<[key := logger_py.the_logger key st]> (logger_py.loggers st)) st).
  destruct (hasHandlers st1 key) eqn:Hhas.
  - eexists. split; [by apply (get_logger_no_handlers_kept name caller lvl n)|].
    split_and!.
    + by rewrite Hlevel.
    + by rewrite the_logger_insert.
    + intros k Hk. simpl. by rewrite lookup_insert_ne.
    + intros _. by rewrite the_logger_insert.
  - assert (Hold : logger_py.lg_handlers (logger_py.the_logger key st) = []).
    { destruct (logger_py.lg_handlers (logger_py.the_logger key st))
        as [|h0 l0] eqn:E; [done|].
      rewrite (Hown st1 key) in Hhas; [done|].
      unfold st1. rewrite the_logger_insert. by rewrite E. }
    eexists. split; [by apply (get_logger_no_handlers_added name caller lvl n)|].
    split_and!.
    + apply Hown. unfold logger_py.the_logger. simpl.
      by rewrite lookup_insert_eq.
    + unfold logger_py.the_logger. simpl. by rewrite lookup_insert_eq.
    + intros k Hk. simpl. by rewrite lookup_insert_ne.
    + intros Hne. by rewrite Hold in Hne.
Qed.

(** A level name that the table does not have: [get_logger] raises
    [ValueError] from [setLevel], after the logger's handlers have been
    replaced, and leaves the logger's level as it was; the preconfigured
    constructors raise it from the first [handler.setLevel], before any
    logger is looked up or changed. *)
Theorem unknown_level_name (nm name : string) (caller : logger_py.Frame)
    (h : nat) (hs : list nat) (st : logger_py.Logging) :
  nm ∉ map fst logger_py._nameToLevel →
  NoDup (h :: hs) →
  (∃ st',
     logger_py.get_logger repr hasHandlers (Some name) caller
       (logger_py.level_str nm) (h :: hs) st
     = (st', Raise (ValueError ("Unknown level: " +:+ repr nm))) ∧
     logger_py.the_logger (logger_key name) st'
     = logger_py.mkPyLogger
         (logger_py.lg_level (logger_py.the_logger (logger_key name) st))
         (h :: hs)) ∧
  (∃ st',
     logger_py.get_console_logger repr hasHandlers name
       (logger_py.level_str nm) st
     = (st', Raise (ValueError ("Unknown level: " +:+ repr nm))) ∧
     logger_py.loggers st' = logger_py.loggers st).
Proof.
  intros Hnm Hnd.
  assert (Hlvl : logger_py._checkLevel repr (logger_py.level_str nm)
                 = Raise (ValueError ("Unknown level: " +:+ repr nm))).
  { unfold logger_py._checkLevel.
    by rewrite (not_elem_of_list_to_map_1 logger_py._nameToLevel nm). }
  split.
  - eexists. split.
    + unfold logger_py.get_logger.
      rewrite bind_unfold, getLogger_spec.
      rewrite bind_unfold, bind_unfold, update_logger_insert.
      rewrite (addHandlers_spec (h :: hs) [] _ _ st) by done. simpl.
      unfold logger_py.Logger_setLevel. rewrite Hlvl.
      by rewrite bind_unfold.
    + by rewrite the_logger_insert.
  - eexists. split.
    + unfold logger_py.get_console_logger, logger_py._get_preconfigured_logger.
      rewrite bind_unfold. unfold logger_py.new_handler at 1.
      rewrite bind_unfold, for_each_cons, bind_unfold.
      unfold logger_py.Handler_setLevel at 1. rewrite Hlvl. reflexivity.
    + done.
Qed.

Lemma preconfigure_one (lvl : logger_py.LogLevel) (n : Z) (h : nat)
    (o : logger_py.PyHandler) (st : logger_py.Logging) :
  logger_py._checkLevel repr lvl = Return n →
  logger_py.handler_objs st !! h = Some o →
  (logger_py.Handler_setLevel repr lvl h;;
   logger_py.Handler_setFormatter logger_py.the_formatter h) st
  = (logger_py.set_handler_objs
       (<[h := logger_py.mkPyHandler (logger_py.h_kind o) n
                 (Some logger_py.the_formatter)]>
          (logger_py.handler_objs st)) st,
     Return ()).
Proof.
  intros Hlvl Ho. rewrite bind_unfold. unfold logger_py.Handler_setLevel.
  rewrite Hlvl. unfold modify, logger_py.Handler_setFormatter, modify.
  unfold logger_py.set_handler_objs. simpl. f_equal. f_equal.
  rewrite <- (insert_id (logger_py.handler_objs st) h o Ho) at 1.
  by rewrite !alter_insert_eq.
Qed.

Lemma one_handler_logger_state (kind : logger_py.HandlerKind) (name : string)
    (lvl : logger_py.LogLevel) (n : Z) (st : logger_py.Logging) :
  logger_py._checkLevel repr lvl = Return n →
  (logger_py.new_handler kind
   ≫= λ h, logger_py._get_preconfigured_logger repr hasHandlers name lvl [h]) st
  = (logger_py.mkLogging
       (<[logger_key name :=
            logger_py.mkPyLogger n [fresh (dom (logger_py.handler_objs st))]]>
          (logger_py.loggers st))
       (<[fresh (dom (logger_py.handler_objs st)) :=
            logger_py.mkPyHandler kind n (Some logger_py.the_formatter)]>
          (logger_py.handler_objs st)),
     Return (logger_key name)).
Proof.
  intros Hlvl.
  rewrite bind_unfold. unfold logger_py.new_handler at 1.
  set (h := fresh (dom (logger_py.handler_objs st))).
  unfold logger_py._get_preconfigured_logger.
  rewrite bind_unfold, for_each_cons.
  erewrite (preconfigure_one lvl n h); [|done|]; cycle 1.
  { simpl. by rewrite lookup_insert_eq. }
  cbn [for_each mret M_ret].
  rewrite (get_logger_with_handlers name _ lvl n) by (done || apply NoDup_singleton).
  unfold logger_py.set_loggers, logger_py.set_handler_objs. simpl.
  by rewrite insert_insert_eq.
Qed.

Lemma two_handler_logger_state (name filename mode : string)
    (lvl : logger_py.LogLevel) (n : Z) (st : logger_py.Logging) :
  logger_py._checkLevel repr lvl = Return n →
  open_file filename mode = None →
  ∃ hf hc,
    hf ≠ hc ∧
    logger_py.handler_objs st !! hf = None ∧
    logger_py.handler_objs st !! hc = None ∧
    logger_py.get_file_and_console_logger repr hasHandlers open_file name
      filename mode lvl st
    = (logger_py.mkLogging
         (<[logger_key name := logger_py.mkPyLogger n [hf; hc]]>
            (logger_py.loggers st))
         (<[hc := logger_py.mkPyHandler logger_py.StreamKind n
                    (Some logger_py.the_formatter)]>
            (<[hf := logger_py.mkPyHandler
                       (logger_py.FileKind filename mode) n
                       (Some logger_py.the_formatter)]>
               (logger_py.handler_objs st))),
       Return (logger_key name)).
Proof.
  intros Hlvl Hopen.
  set (hf := fresh (dom (logger_py.handler_objs st))).
  set (objs1 := <[hf := logger_py.mkPyHandler (logger_py.FileKind filename mode)
                          NOTSET None]> (logger_py.handler_objs st)).
  set (hc := fresh (dom objs1)).
  assert (Hf : logger_py.handler_objs st !! hf = None).
  { apply not_elem_of_dom, is_fresh. }
  assert (Hc1 : objs1 !! hc = None) by apply not_elem_of_dom, is_fresh.
  assert (Hne : hf ≠ hc).
  { intros E. rewrite <- E in Hc1. unfold objs1 in Hc1.
    by rewrite lookup_insert_eq in Hc1. }
  assert (Hc : logger_py.handler_objs st !! hc = None).
  { unfold objs1 in Hc1. by rewrite lookup_insert_ne in Hc1. }
  exists hf, hc. split_and!; try done.
  unfold logger_py.get_file_and_console_logger, logger_py.FileHandler.
  rewrite Hopen.
  rewrite bind_unfold. unfold logger_py.new_handler at 1. fold hf. fold objs1.
  rewrite bind_unfold. unfold logger_py.new_handler at 1.
  cbn [logger_py.handler_objs logger_py.set_handler_objs]. fold hc.
  unfold logger_py._get_preconfigured_logger.
  rewrite bind_unfold, for_each_cons.
  erewrite (preconfigure_one lvl n hf); [|done|]; cycle 1.
  { simpl. rewrite lookup_insert_ne by done. unfold objs1.
    by rewrite lookup_insert_eq. }
  rewrite for_each_cons.
  erewrite (preconfigure_one lvl n hc); [|done|]; cycle 1.
  { simpl. rewrite lookup_insert_ne by done. by rewrite lookup_insert_eq. }
  cbn [for_each mret M_ret].
  rewrite (get_logger_with_handlers name _ lvl n); [|done|]; cycle 1.
  { apply NoDup_cons. split; [|apply NoDup_singleton].
    intros Hin. by apply list_elem_of_singleton in Hin. }
  unfold logger_py.set_loggers, logger_py.set_handler_objs. simpl.
  f_equal. f_equal. unfold objs1. clear Hc1. clearbody hc. clear objs1.
  clearbody hf. apply map_eq. intros i.
  destruct (decide (i = hc)) as [->|Hic]; [by rewrite !lookup_insert_eq|].
  destruct (decide (i = hf)) as [->|Hif];
    by repeat (rewrite lookup_insert_eq || rewrite lookup_insert_ne by done).
Qed.

(** A file that cannot be opened: the constructor call raises before
    anything else is evaluated, and nothing has changed. *)
Lemma FileHandler_raises {A} (filename mode : string) (e : Exn)
    (k : nat → M logger_py.Logging A) (st : logger_py.Logging) :
  open_file filename mode = Some e →
  (logger_py.FileHandler open_file filename mode ≫= k) st = (st, Raise e).
Proof.
  intros Hopen. rewrite bind_unfold. unfold logger_py.FileHandler.
  by rewrite Hopen.
Qed.

(** A level that [_checkLevel] refuses: the first [handler.setLevel] raises,
    before any logger is looked up. *)
Lemma preconfigured_bad_level (name : string) (lvl : logger_py.LogLevel)
    (e : Exn) (h : nat) (hs : list nat) (st : logger_py.Logging) :
  logger_py._checkLevel repr lvl = Raise e →
  logger_py._get_preconfigured_logger repr hasHandlers name lvl (h :: hs) st
  = (st, Raise e).
Proof.
  intros Hlvl. unfold logger_py._get_preconfigured_logger.
  rewrite bind_unfold, for_each_cons, bind_unfold.
  unfold logger_py.Handler_setLevel at 1. by rewrite Hlvl.
Qed.

Lemma handlers_of_insert (key : option string) (n : Z) (hs : list nat)
    (lgs : gmap (option string) logger_py.PyLogger)
    (objs : gmap nat logger_py.PyHandler) :
  handlers_of (logger_py.mkLogging (<[key := logger_py.mkPyLogger n hs]> lgs) objs)
              key
  = map (λ h, objs !! h) hs.
Proof.
  unfold handlers_of, logger_py.the_logger. simpl. by rewrite lookup_insert_eq.
Qed.

(** The preconfigured constructors. A file that cannot be opened makes the
    two constructors with a file raise what [open] raised, with nothing
    created or changed. For a valid level, and a file that can be opened,
    each constructor creates its handlers anew, sets their level and the
    module's formatter, and leaves the logger [logging.getLogger(name)] at
    that level with exactly those handlers, the file handler first. *)
Theorem preconfigured_loggers (name filename mode : string)
    (lvl : logger_py.LogLevel) (n : Z) (st : logger_py.Logging) :
  (∀ e, open_file filename mode = Some e →
     logger_py.get_file_logger repr hasHandlers open_file name filename mode
       lvl st = (st, Raise e) ∧
     logger_py.get_file_and_console_logger repr hasHandlers open_file name
       filename mode lvl st = (st, Raise e)) ∧
  (logger_py._checkLevel repr lvl = Return n →
   (∃ st' h,
      logger_py.get_console_logger repr hasHandlers name lvl st
      = (st', Return (logger_key name)) ∧
      logger_py.handler_objs st !! h = None ∧
      logger_py.loggers st' !! logger_key name
      = Some (logger_py.mkPyLogger n [h]) ∧
      logger_py.handler_objs st' !! h = configured logger_py.StreamKind n) ∧
   (open_file filename mode = None →
    (∃ st' h,
       logger_py.get_file_logger repr hasHandlers open_file name filename mode
         lvl st
       = (st', Return (logger_key name)) ∧
       logger_py.handler_objs st !! h = None ∧
       logger_py.loggers st' !! logger_key name
       = Some (logger_py.mkPyLogger n [h]) ∧
       logger_py.handler_objs st' !! h
       = configured (logger_py.FileKind filename mode) n) ∧
    (∃ st' hf hc,
       logger_py.get_file_and_console_logger repr hasHandlers open_file name
         filename mode lvl st
       = (st', Return (logger_key name)) ∧
       hf ≠ hc ∧
       logger_py.handler_objs st !! hf = None ∧
       logger_py.handler_objs st !! hc = None ∧
       logger_py.loggers st' !! logger_key name
       = Some (logger_py.mkPyLogger n [hf; hc]) ∧
       logger_py.handler_objs st' !! hf
       = configured (logger_py.FileKind filename mode) n ∧
       logger_py.handler_objs st' !! hc = configured logger_py.StreamKind n))).
Proof.
  split.
  { intros e Hopen. split; by apply FileHandler_raises. }
  intros Hlvl.
  assert (Hfresh : logger_py.handler_objs st
                   !! fresh (dom (logger_py.handler_objs st)) = None).
  { apply not_elem_of_dom, is_fresh. }
  split; [|intros Hopen; split].
  - eexists _, _. split.
    { unfold logger_py.get_console_logger.
      by apply (one_handler_logger_state logger_py.StreamKind name lvl n). }
    simpl. rewrite !lookup_insert_eq. by split_and!.
  - eexists _, _. split.
    { unfold logger_py.get_file_logger, logger_py.FileHandler. rewrite Hopen.
      by apply (one_handler_logger_state (logger_py.FileKind filename mode)
                  name lvl n). }
    simpl. rewrite !lookup_insert_eq. by split_and!.
  - destruct (two_handler_logger_state name filename mode lvl n st Hlvl Hopen)
      as (hf & hc & Hne & Hf & Hc & ->).
    eexists _, hf, hc. split; [done|]. simpl.
    repeat (rewrite lookup_insert_eq || rewrite lookup_insert_ne by done).
    by split_and!.
Qed.

(** ** [Logtor] *)

Lemma Logtor_init_file (f mode : string) (lvl : logger_py.LogLevel)
    (console : option bool) (name : string) :
  Logtor_init repr hasHandlers open_file (Some f) mode lvl console name
  = if default false console
    then logger_py.get_file_and_console_logger repr hasHandlers open_file
           name f mode lvl
    else logger_py.get_file_logger repr hasHandlers open_file name f mode lvl.
Proof. by destruct console as [[]|]. Qed.

Lemma Logtor_init_no_file (mode : string) (lvl : logger_py.LogLevel)
    (console : option bool) (name : string) :
  Logtor_init repr hasHandlers open_file None mode lvl console name
  = if default true console
    then logger_py.get_console_logger repr hasHandlers name lvl
    else throw (ValueError "must provide a `filename` when `console` is False").
Proof. by destruct console as [[]|]. Qed.

(** C9. With no filename and [console=False] the constructor raises a
    [ValueError] and the state of [logging] is left as it was: no logger has
    been looked up, created or configured, and no handler object made. A
    [console] left unspecified stands for [filename is None]: the logger then
    has the console handler alone when there is no filename, and the file
    handler alone when there is one. With a destination, a valid level and a
    file that can be opened, the constructor returns the logger; a file that
    cannot be opened makes it raise what [open] raised, again before any
    logger is touched. *)
Theorem Logtor_no_destination (filename : option string) (mode : string)
    (lvl : logger_py.LogLevel) (name : string) (st : logger_py.Logging) :
  Logtor_init repr hasHandlers open_file None mode lvl (Some false) name st
  = (st, Raise (ValueError "must provide a `filename` when `console` is False")) ∧
  Logtor_init repr hasHandlers open_file filename mode lvl None name st
  = Logtor_init repr hasHandlers open_file filename mode lvl
      (Some (bool_decide (filename = None))) name st ∧
  (∀ console f e,
     open_file f mode = Some e →
     Logtor_init repr hasHandlers open_file (Some f) mode lvl console name st
     = (st, Raise e)) ∧
  (∀ n, logger_py._checkLevel repr lvl = Return n →
    (∃ st',
       Logtor_init repr hasHandlers open_file None mode lvl None name st
       = (st', Return (logger_key name)) ∧
       handlers_of st' (logger_key name) = [configured logger_py.StreamKind n]) ∧
    (∀ f, open_file f mode = None →
       ∃ st',
         Logtor_init repr hasHandlers open_file (Some f) mode lvl None name st
         = (st', Return (logger_key name)) ∧
         handlers_of st' (logger_key name)
         = [configured (logger_py.FileKind f mode) n]) ∧
    (∀ console, console ≠ Some false →
       (Logtor_init repr hasHandlers open_file None mode lvl console name st).2
       = Return (logger_key name)) ∧
    (∀ console f, open_file f mode = None →
       (Logtor_init repr hasHandlers open_file (Some f) mode lvl console name
          st).2
       = Return (logger_key name))).
Proof.
  split; [reflexivity|]. split; [reflexivity|]. split.
  { intros console f e Hopen. rewrite Logtor_init_file.
    destruct (default false console); by apply FileHandler_raises. }
  intros n Hlvl.
  assert (Hconsole : ∃ st',
            logger_py.get_console_logger repr hasHandlers name lvl st
            = (st', Return (logger_key name)) ∧
            handlers_of st' (logger_key name)
            = [configured logger_py.StreamKind n]).
  { eexists. split.
    - unfold logger_py.get_console_logger.
      by apply (one_handler_logger_state logger_py.StreamKind name lvl n).
    - rewrite handlers_of_insert. simpl. by rewrite lookup_insert_eq. }
  assert (Hfile : ∀ f, open_file f mode = None →
            ∃ st',
              logger_py.get_file_logger repr hasHandlers open_file name f mode
                lvl st
              = (st', Return (logger_key name)) ∧
              handlers_of st' (logger_key name)
              = [configured (logger_py.FileKind f mode) n]).
  { intros f Hopen. eexists. split.
    - unfold logger_py.get_file_logger, logger_py.FileHandler. rewrite Hopen.
      by apply (one_handler_logger_state (logger_py.FileKind f mode) name lvl n).
    - rewrite handlers_of_insert. simpl. by rewrite lookup_insert_eq. }
  split_and!.
  - exact Hconsole.
  - exact Hfile.
  - destruct Hconsole as (st' & Hrun & _).
    intros [[]|] Hc; try done; rewrite Logtor_init_no_file; cbn [from_option id];
      by rewrite Hrun.
  - intros console f Hopen. rewrite Logtor_init_file.
    destruct (default false console).
    + destruct (two_handler_logger_state name f mode lvl n st Hlvl Hopen)
        as (hf & hc & _ & _ & _ & ->). done.
    + by destruct (Hfile f Hopen) as (st' & -> & _).
Qed.

(** Whenever the constructor succeeds, the level was a valid one, the file,
    if one was asked for, could be opened, and the logger configured is
    [logging.getLogger(name)], at the given level; its handlers are new
    objects at that level with the module's formatter: the file handler, on
    the file and mode given, exactly when a filename was given, followed by
    the console handler exactly when [console] was true, or left out with no
    filename; no other logger is touched. *)
Theorem Logtor_destinations (filename : option string) (mode : string)
    (lvl : logger_py.LogLevel) (console : option bool) (name : string)
    (st st' : logger_py.Logging) (lg : option string) :
  Logtor_init repr hasHandlers open_file filename mode lvl console name st
  = (st', Return lg) →
  lg = logger_key name ∧
  (∀ f, filename = Some f → open_file f mode = None) ∧
  (∀ other, other ≠ lg →
            logger_py.loggers st' !! other = logger_py.loggers st !! other) ∧
  ∃ n,
    logger_py._checkLevel repr lvl = Return n ∧
    logger_py.lg_level (logger_py.the_logger lg st') = n ∧
    handlers_of st' lg
    = match filename with
      | Some f => [configured (logger_py.FileKind f mode) n]
      | None => []
      end
      ++ (if default (bool_decide (filename = None)) console
          then [configured logger_py.StreamKind n] else []) ∧
    Forall (λ h, logger_py.handler_objs st !! h = None)
      (logger_py.lg_handlers (logger_py.the_logger lg st')).
Proof.
  assert (Hfresh : logger_py.handler_objs st
                   !! fresh (dom (logger_py.handler_objs st)) = None).
  { apply not_elem_of_dom, is_fresh. }
  destruct filename as [f|].
  - rewrite Logtor_init_file.
    destruct (open_file f mode) as [e|] eqn:Hopen.
    { destruct (default false console); cbv beta iota;
        unfold logger_py.get_file_and_console_logger, logger_py.get_file_logger;
        rewrite (FileHandler_raises f mode e) by done; done. }
    destruct (logger_py._checkLevel repr lvl) as [n|e] eqn:Hlvl; cycle 1.
    { unfold logger_py.get_file_and_console_logger, logger_py.get_file_logger,
        logger_py.FileHandler.
      rewrite Hopen.
      destruct (default false console); cbv beta iota;
        rewrite !bind_unfold; unfold logger_py.new_handler;
        rewrite ?bind_unfold;
        by rewrite (preconfigured_bad_level name lvl e). }
    assert (console = Some true ∧ default false console = true
            ∨ default (bool_decide (Some f = None)) console = false
              ∧ default false console = false) as [[-> ->]|[Hc ->]].
    { destruct console as [[]|]; auto. }
    + destruct (two_handler_logger_state name f mode lvl n st Hlvl Hopen)
        as (hf & hc & Hne & Hf & Hc & ->).
      intros [= <- <-]. split; [done|]. split; [by intros f' [= <-]|].
      split.
      { intros other Hno. simpl. by rewrite lookup_insert_ne. }
      exists n. split; [done|]. rewrite handlers_of_insert.
      unfold logger_py.the_logger. cbn [logger_py.loggers].
      rewrite !lookup_insert_eq. cbn [from_option id logger_py.lg_level logger_py.lg_handlers map app].
      rewrite lookup_insert_ne by done. rewrite !lookup_insert_eq.
      split_and!; try done. by repeat constructor.
    + rewrite Hc.
      unfold logger_py.get_file_logger, logger_py.FileHandler. rewrite Hopen.
      rewrite (one_handler_logger_state (logger_py.FileKind f mode) name lvl n
                 st Hlvl).
      intros [= <- <-]. split; [done|]. split; [by intros f' [= <-]|].
      split.
      { intros other Hne. simpl. by rewrite lookup_insert_ne. }
      exists n. split; [done|]. rewrite handlers_of_insert.
      unfold logger_py.the_logger. cbn [logger_py.loggers].
      rewrite !lookup_insert_eq. cbn [from_option id logger_py.lg_level logger_py.lg_handlers map app].
      rewrite !lookup_insert_eq.
      split_and!; try done. by constructor.
  - rewrite Logtor_init_no_file.
    destruct console as [[]|]; cbn [from_option id]; try done;
      (destruct (logger_py._checkLevel repr lvl) as [n|e] eqn:Hlvl;
       [|unfold logger_py.get_console_logger;
         rewrite !bind_unfold; unfold logger_py.new_handler;
         by rewrite (preconfigured_bad_level name lvl e)]);
      unfold logger_py.get_console_logger;
      rewrite (one_handler_logger_state logger_py.StreamKind name lvl n st Hlvl);
      intros [= <- <-]; (split; [done|]); (split; [done|]);
      (split; [by intros other Hne; simpl; rewrite lookup_insert_ne|]);
      exists n; (split; [done|]); rewrite handlers_of_insert;
      unfold logger_py.the_logger; cbn [logger_py.loggers];
      rewrite !lookup_insert_eq; simpl; rewrite !lookup_insert_eq;
      split_and!; try done; by constructor.
Qed.

Lemma addHandlers_total (hs : list nat) (key : option string)
    (lg : logger_py.PyLogger) (st : logger_py.Logging) :
  ∃ lg',
    for_each (λ h, logger_py.Logger_addHandler h key) hs
      (logger_py.set_loggers (<[key := lg]> (logger_py.loggers st)) st)
    = (logger_py.set_loggers (<[key := lg']> (logger_py.loggers st)) st,
       Return ()) ∧
    logger_py.lg_level lg' = logger_py.lg_level lg.
Proof.
  revert lg. induction hs as [|h hs IH]; intros lg.
  - by exists lg.
  - rewrite for_each_cons. unfold logger_py.Logger_addHandler at 1.
    rewrite update_logger_insert.
    destruct (IH (if bool_decide (h ∈ logger_py.lg_handlers lg) then lg
                  else logger_py.mkPyLogger (logger_py.lg_level lg)
                         (logger_py.lg_handlers lg ++ [h])))
      as (lg' & -> & Hl).
    exists lg'. split; [done|]. rewrite Hl. by case_bool_decide.
Qed.

Lemma get_logger_level_no_handlers (name : string) (caller : logger_py.Frame)
    (lvl : logger_py.LogLevel) (n : Z) (st : logger_py.Logging) :
  logger_py._checkLevel repr lvl = Return n →
  ∃ st',
    logger_py.get_logger repr hasHandlers (Some name) caller lvl [] st
    = (st', Return (logger_key name)) ∧
    logger_py.lg_level (logger_py.the_logger (logger_key name) st') = n ∧
    (∀ k, k ≠ logger_key name →
          logger_py.loggers st' !! k = logger_py.loggers st !! k).
Proof.
  intros Hlvl. unfold logger_py.get_logger.
  rewrite bind_unfold, getLogger_spec.
  set (key := logger_key name). rewrite bind_unfold.
  rewrite bind_unfold. unfold logger_py.gets at 1.
  set (st1 := logger_py.set_loggers _ st).
  destruct (hasHandlers st1 key); cbn [negb].
  - cbn [mret M_ret]. unfold st1, logger_py.Logger_setLevel. rewrite Hlvl.
    rewrite bind_unfold, update_logger_insert.
    eexists. split; [done|]. split; [by rewrite the_logger_insert|].
    intros k Hk. simpl. by rewrite lookup_insert_ne.
  - rewrite bind_unfold. unfold logger_py.new_handler at 1. unfold st1.
    cbn [logger_py.handler_objs logger_py.set_loggers].
    set (objs := <[_ := _]> (logger_py.handler_objs st)).
    change (logger_py.set_handler_objs objs
              (logger_py.set_loggers
                 (<[key := logger_py.the_logger key st]> (logger_py.loggers st))
                 st))
      with (logger_py.set_loggers
              (<[key := logger_py.the_logger key st]>
                 (logger_py.loggers (logger_py.set_handler_objs objs st)))
              (logger_py.set_handler_objs objs st)).
    unfold logger_py.Logger_addHandler. rewrite update_logger_insert.
    unfold logger_py.Logger_setLevel. rewrite Hlvl.
    rewrite bind_unfold, update_logger_insert.
    eexists. split; [done|]. split; [by rewrite the_logger_insert|].
    intros k Hk. simpl. by rewrite lookup_insert_ne.
Qed.

(** [get_logger] always sets the level: whatever handlers are passed, with
    duplicates or not, and whatever [hasHandlers] answers, the call returns
    the logger and the logger ends at the level given, so a call that leaves
    the level out puts an existing logger back to NOTSET; no other logger
    changes. *)
Theorem get_logger_always_sets_level (name : string)
    (caller : logger_py.Frame) (lvl : logger_py.LogLevel) (n : Z)
    (handlers : list nat) (st : logger_py.Logging) :
  logger_py._checkLevel repr lvl = Return n →
  ∃ st',
    logger_py.get_logger repr hasHandlers (Some name) caller lvl handlers st
    = (st', Return (logger_key name)) ∧
    logger_py.lg_level (logger_py.the_logger (logger_key name) st') = n ∧
    (∀ k, k ≠ logger_key name →
          logger_py.loggers st' !! k = logger_py.loggers st !! k).
Proof.
  intros Hlvl. destruct handlers as [|h hs].
  { by apply get_logger_level_no_handlers. }
  unfold logger_py.get_logger.
  rewrite bind_unfold, getLogger_spec.
  set (key := logger_key name).
  rewrite bind_unfold, bind_unfold, update_logger_insert.
  destruct (addHandlers_total (h :: hs) key
              (logger_py.mkPyLogger
                 (logger_py.lg_level (logger_py.the_logger key st)) []) st)
    as (lg' & -> & _).
  unfold logger_py.Logger_setLevel. rewrite Hlvl.
  rewrite bind_unfold, update_logger_insert.
  eexists. split; [done|]. split; [by rewrite the_logger_insert|].
  intros k Hk. simpl. by rewrite lookup_insert_ne.
Qed.

Lemma string_length_app (a b : string) :
  String.length (a +:+ b) = String.length a + String.length b.
Proof. induction a as [|c a IH]; simpl; [done | by rewrite IH]. Qed.

Lemma child_key_ne (parent : option string) (suffix : string) :
  child_key parent suffix ≠ parent.
Proof.
  destruct parent as [name|]; simpl; [|done]. intros [= E].
  apply (f_equal String.length) in E. rewrite !string_length_app in E.
  simpl in E. lia.
Qed.

(** The class logger is the child of its parent named after the class:
    ["parent.Class"], or ["Class"] under the root logger. With a parent
    given, nothing else happens than the child being looked up. Without one,
    the parent is the logger of the class's module, fetched with
    [get_logger]: the class logger is ["module.Class"], and the module's
    logger is at NOTSET afterwards, whatever its level was. *)
Theorem ClassLogger_get_child (module class_name : string)
    (st : logger_py.Logging) :
  (∀ p,
     logger_py.ClassLogger_get repr hasHandlers (Some p) module class_name st
     = (logger_py.set_loggers
          (<[child_key p class_name :=
               logger_py.the_logger (child_key p class_name) st]>
             (logger_py.loggers st)) st,
        Return (child_key p class_name))) ∧
  ∃ st',
    logger_py.ClassLogger_get repr hasHandlers None module class_name st
    = (st', Return (child_key (logger_key module) class_name)) ∧
    logger_py.lg_level (logger_py.the_logger (logger_key module) st') = NOTSET ∧
    (logger_key module = Some module →
     logger_py.name_of (child_key (logger_key module) class_name)
     = module +:+ "." +:+ class_name).
Proof.
  split.
  - intros [name|]; reflexivity.
  - unfold logger_py.ClassLogger_get. rewrite bind_unfold.
    destruct (get_logger_level_no_handlers module
                (logger_py.mkFrame (Some "epic.logging.logger") "__get__")
                (logger_py.level_int NOTSET) NOTSET st eq_refl)
      as (st1 & -> & Hl & _).
    assert (Hne : child_key (logger_key module) class_name
                  ≠ logger_key module) by apply child_key_ne.
    destruct (logger_key module) as [m|] eqn:E; simpl;
      (eexists; split; [reflexivity|]); split.
    + unfold logger_py.the_logger; simpl.
      rewrite lookup_insert_ne by done. exact Hl.
    + by intros [= ->].
    + unfold logger_py.the_logger; simpl.
      rewrite lookup_insert_ne by done. exact Hl.
    + done.
Qed.

End logger_py_properties.

Lemma get_logger_level_names_witness :
  logger_py.get_logger Scenario_logging.repr_plain
    Scenario_logging.has_handlers_flat (Some "app")
    (logger_py.mkFrame None "f") (logger_py.level_str "INFO") [8]
    Scenario_logging.st0
  = logger_py.get_logger Scenario_logging.repr_plain
      Scenario_logging.has_handlers_flat (Some "app")
      (logger_py.mkFrame None "f") (logger_py.level_int INFO) [8]
      Scenario_logging.st0.
Proof.
  apply (get_logger_level_names Scenario_logging.repr_plain
           Scenario_logging.has_handlers_flat "INFO" INFO).
  unfold logger_py._nameToLevel. rewrite !elem_of_cons. auto 10.
Defined.

Lemma get_logger_sets_handlers_witness :
  ∃ st',
    logger_py.get_logger Scenario_logging.repr_plain
      Scenario_logging.has_handlers_flat (Some "app")
      (logger_py.mkFrame None "f") (logger_py.level_int INFO) [8; 9]
      Scenario_logging.st0
    = (st', Return (Some "app")) ∧
    logger_py.loggers Scenario_logging.st0 !! Some "app"
    = Some (logger_py.mkPyLogger DEBUG [7]) ∧
    logger_py.loggers st' !! Some "app"
    = Some (logger_py.mkPyLogger INFO [8; 9]).
Proof.
  destruct (get_logger_sets_handlers Scenario_logging.repr_plain
              Scenario_logging.has_handlers_flat "app"
              (logger_py.mkFrame None "f") (logger_py.level_int INFO) INFO
              8 [9] Scenario_logging.st0)
    as (st' & Hrun & Hlg & _).
  - reflexivity.
  - apply NoDup_cons. split; [|apply NoDup_singleton].
    intros Hin. apply list_elem_of_In in Hin. simpl in Hin. lia.
  - exists st'. by split_and!.
Defined.

Lemma has_handlers_flat_own (st : logger_py.Logging) (key : option string) :
  logger_py.lg_handlers (logger_py.the_logger key st) ≠ [] →
  Scenario_logging.has_handlers_flat st key = true.
Proof.
  intros Hne. unfold Scenario_logging.has_handlers_flat.
  by rewrite bool_decide_eq_false_2.
Qed.

Lemma has_handlers_flat_level (st : logger_py.Logging)
    (key k : option string) (m : Z) :
  Scenario_logging.has_handlers_flat
    (logger_py.set_loggers
       (<[k := logger_py.mkPyLogger m
                 (logger_py.lg_handlers (logger_py.the_logger k st))]>
          (logger_py.loggers st)) st) key
  = Scenario_logging.has_handlers_flat
      (logger_py.set_loggers
         (<[k := logger_py.the_logger k st]> (logger_py.loggers st)) st) key.
Proof.
  assert (Hsame : ∀ key',
    logger_py.lg_handlers
      (logger_py.the_logger key'
         (logger_py.set_loggers
            (<[k := logger_py.mkPyLogger m
                      (logger_py.lg_handlers (logger_py.the_logger k st))]>
               (logger_py.loggers st)) st))
    = logger_py.lg_handlers
        (logger_py.the_logger key'
           (logger_py.set_loggers
              (<[k := logger_py.the_logger k st]> (logger_py.loggers st)) st))).
  { intros key'. unfold logger_py.the_logger at 1 3. simpl.
    destruct (decide (k = key')) as [->|Hne].
    - by rewrite !lookup_insert_eq.
    - by rewrite !lookup_insert_ne. }
  unfold Scenario_logging.has_handlers_flat. by rewrite !Hsame.
Qed.

Lemma get_logger_without_handlers_witness :
  ∃ st',
    logger_py.get_logger Scenario_logging.repr_plain
      Scenario_logging.has_handlers_flat (Some "lib")
      (logger_py.mkFrame None "f") (logger_py.level_int NOTSET) []
      Scenario_logging.st0
    = (st', Return (Some "lib")) ∧
    Scenario_logging.has_handlers_flat Scenario_logging.st0 (Some "lib") = false ∧
    Scenario_logging.has_handlers_flat st' (Some "lib") = true.
Proof.
  destruct (get_logger_without_handlers Scenario_logging.repr_plain
              Scenario_logging.has_handlers_flat "lib"
              (logger_py.mkFrame None "f") (logger_py.level_int NOTSET) NOTSET
              Scenario_logging.st0)
    as (st' & Hrun & Hhas & _).
  - apply has_handlers_flat_own.
  - apply has_handlers_flat_level.
  - reflexivity.
  - exists st'. by split_and!.
Defined.

Lemma unknown_level_name_witness :
  ∃ st',
    logger_py.get_logger Scenario_logging.repr_plain
      Scenario_logging.has_handlers_flat (Some "app")
      (logger_py.mkFrame None "f") (logger_py.level_str "BOGUS") [8]
      Scenario_logging.st0
    = (st', Raise (ValueError "Unknown level: 'BOGUS'")) ∧
    logger_py.the_logger (Some "app") st' = logger_py.mkPyLogger DEBUG [8].
Proof.
  destruct (unknown_level_name Scenario_logging.repr_plain
              Scenario_logging.has_handlers_flat "BOGUS" "app"
              (logger_py.mkFrame None "f") 8 [] Scenario_logging.st0)
    as [(st' & Hrun & Hlg) _].
  - vm_compute. intros Hin. apply list_elem_of_In in Hin. simpl in Hin.
    intuition discriminate.
  - apply NoDup_singleton.
  - exists st'. by split.
Defined.

Lemma preconfigured_loggers_witness :
  (∃ st' hf hc,
     logger_py.get_file_and_console_logger Scenario_logging.repr_plain
       Scenario_logging.has_handlers_flat Scenario_logging.open_file
       "LOGTOR" "run.log" "a" (logger_py.level_str "INFO") Scenario_logging.st0
     = (st', Return (Some "LOGTOR")) ∧
     logger_py.loggers st' !! Some "LOGTOR"
     = Some (logger_py.mkPyLogger INFO [hf; hc]) ∧
     handlers_of st' (Some "LOGTOR")
     = [configured (logger_py.FileKind "run.log" "a") INFO;
        configured logger_py.StreamKind INFO]) ∧
  logger_py.get_file_logger Scenario_logging.repr_plain
    Scenario_logging.has_handlers_flat Scenario_logging.open_file
    "LOGTOR" "/missing/run.log" "a" (logger_py.level_str "INFO")
    Scenario_logging.st0
  = (Scenario_logging.st0, Raise (OtherException "FileNotFoundError")).
Proof.
  split.
  - destruct (preconfigured_loggers Scenario_logging.repr_plain
                Scenario_logging.has_handlers_flat Scenario_logging.open_file
                "LOGTOR" "run.log" "a" (logger_py.level_str "INFO") INFO
                Scenario_logging.st0)
      as (_ & Hok).
    destruct Hok as (_ & Hfile); [reflexivity|].
    destruct Hfile as (_ & st' & hf & hc & Hrun & _ & _ & _ & Hlg & Hhf & Hhc);
      [reflexivity|].
    change (logger_key "LOGTOR") with (Some "LOGTOR") in Hrun, Hlg.
    exists st', hf, hc. split_and!; try done.
    unfold handlers_of, logger_py.the_logger. rewrite Hlg. simpl.
    by rewrite Hhf, Hhc.
  - apply (preconfigured_loggers Scenario_logging.repr_plain
             Scenario_logging.has_handlers_flat Scenario_logging.open_file
             "LOGTOR" "/missing/run.log" "a" (logger_py.level_str "INFO") INFO
             Scenario_logging.st0).
    reflexivity.
Defined.

Lemma Logtor_no_destination_witness :
  (Logtor_init Scenario_logging.repr_plain Scenario_logging.has_handlers_flat
     Scenario_logging.open_file None "a" (logger_py.level_int INFO) (Some true)
     "LOGTOR" Scenario_logging.st0).2 = Return (Some "LOGTOR") ∧
  (∃ st',
     Logtor_init Scenario_logging.repr_plain Scenario_logging.has_handlers_flat
       Scenario_logging.open_file (Some "run.log") "a"
       (logger_py.level_int INFO) None "LOGTOR" Scenario_logging.st0
     = (st', Return (Some "LOGTOR")) ∧
     handlers_of st' (Some "LOGTOR")
     = [configured (logger_py.FileKind "run.log" "a") INFO]) ∧
  Logtor_init Scenario_logging.repr_plain Scenario_logging.has_handlers_flat
    Scenario_logging.open_file (Some "/missing/run.log") "a"
    (logger_py.level_int INFO) None "LOGTOR" Scenario_logging.st0
  = (Scenario_logging.st0, Raise (OtherException "FileNotFoundError")).
Proof.
  destruct (Logtor_no_destination Scenario_logging.repr_plain
              Scenario_logging.has_handlers_flat Scenario_logging.open_file
              None "a" (logger_py.level_int INFO) "LOGTOR" Scenario_logging.st0)
    as (_ & _ & Hmissing & Hvalid).
  destruct (Hvalid INFO eq_refl) as (_ & Hfile & Hconsole & _).
  split_and!.
  - apply Hconsole. discriminate.
  - apply Hfile. reflexivity.
  - apply Hmissing. reflexivity.
Defined.

Lemma Logtor_destinations_witness :
  handlers_of
    (Logtor_init Scenario_logging.repr_plain Scenario_logging.has_handlers_flat
       Scenario_logging.open_file (Some "run.log") "w"
       (logger_py.level_str "DEBUG") (Some true) "" Scenario_logging.st0).1
    None
  = [configured (logger_py.FileKind "run.log" "w") DEBUG;
     configured logger_py.StreamKind DEBUG].
Proof.
  destruct (Logtor_destinations Scenario_logging.repr_plain
              Scenario_logging.has_handlers_flat Scenario_logging.open_file
              (Some "run.log") "w" (logger_py.level_str "DEBUG") (Some true) ""
              Scenario_logging.st0
              (Logtor_init Scenario_logging.repr_plain
                 Scenario_logging.has_handlers_flat Scenario_logging.open_file
                 (Some "run.log") "w" (logger_py.level_str "DEBUG") (Some true)
                 "" Scenario_logging.st0).1
              None)
    as (_ & _ & _ & n & Hn & _ & Hhs & _).
  - vm_compute. reflexivity.
  - injection Hn as <-. exact Hhs.
Defined.

Lemma get_logger_always_sets_level_witness :
  ∃ st',
    logger_py.get_logger Scenario_logging.repr_plain
      Scenario_logging.has_handlers_flat (Some "app")
      (logger_py.mkFrame None "f") (logger_py.level_int NOTSET) []
      Scenario_logging.st0
    = (st', Return (Some "app")) ∧
    logger_py.lg_level (logger_py.the_logger (Some "app") Scenario_logging.st0)
    = DEBUG ∧
    logger_py.lg_level (logger_py.the_logger (Some "app") st') = NOTSET.
Proof.
  destruct (get_logger_always_sets_level Scenario_logging.repr_plain
              Scenario_logging.has_handlers_flat "app"
              (logger_py.mkFrame None "f") (logger_py.level_int NOTSET) NOTSET
              [] Scenario_logging.st0)
    as (st' & Hrun & Hlvl & _).
  - reflexivity.
  - exists st'. by split_and!.
Defined.

Lemma emit_keeps_record_witness :
  (@emit unit Scenario.broken_pipe Sample.format_exception
     (LogregatorHandler_init INFO 0) 7 Sample.hello ()).2
  = Raise (OtherException "BrokenPipeError") ∧
  OtherException "BrokenPipeError" ≠ queue_Full ∧
  (@put unit Scenario.broken_pipe () (7%Z, Sample.hello)).2
  = Raise (OtherException "BrokenPipeError").
Proof.
  split; [reflexivity|].
  destruct (@emit_keeps_record unit Scenario.broken_pipe Sample.format_exception
              (LogregatorHandler_init INFO 0) 7 Sample.hello ())
    as (_ & _ & _ & _ & _ & Hraise).
  destruct (Hraise (OtherException "BrokenPipeError") eq_refl)
    as [Hne [(Hty & _)|(_ & Hput)]].
  - discriminate Hty.
  - split; [exact Hne | exact Hput].
Defined.

Lemma emit_on_channel_witness :
  (emit Sample.format_exception (LogregatorHandler_init INFO 0) 7
     Sample.failed (no_more_input new_queue)).2 = Return () ∧
  (emit Sample.format_exception (LogregatorHandler_init INFO 0) 7
     Sample.failed (no_more_input new_queue)).1.2
  = no_more_input new_queue ∧
  (emit Sample.format_exception (LogregatorHandler_init INFO 0) 7
     Sample.unflagged new_queue).2 ≠ Return ().
Proof.
  destruct (emit_on_channel Sample.format_exception
              (LogregatorHandler_init INFO 0) 7 Sample.failed
              (no_more_input new_queue)) as (_ & Hret & _ & _ & Hclosed).
  split_and!.
  - apply Hret. discriminate.
  - apply Hclosed. reflexivity.
  - apply (emit_on_channel Sample.format_exception
             (LogregatorHandler_init INFO 0) 7 Sample.unflagged new_queue).
    split_and!; [reflexivity | vm_compute; discriminate | reflexivity].
Defined.

Lemma ClassLogger_get_child_witness :
  logger_py.name_of (child_key (logger_key "epic.logging.tests.test_logger")
                       "TestClassLogger")
  = "epic.logging.tests.test_logger.TestClassLogger".
Proof.
  destruct (ClassLogger_get_child Scenario_logging.repr_plain
              Scenario_logging.has_handlers_flat
              "epic.logging.tests.test_logger" "TestClassLogger"
              Scenario_logging.st0) as (_ & st' & _ & _ & Hname).
  by rewrite Hname.
Defined.
